(** * YOLOv6 entry scripts: [tools/train.py] and [tools/infer.py]

    A shallow embedding of the two command-line entry points and of the
    properties their specification states about them.

    The scripts are orchestration glue: they read and write a few paths,
    mutate an argument namespace and call collaborators ([Trainer],
    [Inferer], [yolov6.utils.*], [torch.distributed]).  The embedding
    keeps what the scripts themselves decide:

    - Python values and namespaces ([Py]): a namespace is a finite map
      from attribute names to values, attribute access on a missing name
      raises [AttributeError];
    - paths ([OsPath], [PathLib]): [os.path.join] and the pure part of
      [pathlib.Path] on POSIX path strings;
    - effects ([Eff]): a computation threads the file system, may raise,
      and emits the calls it makes, in order; the collaborators are
      parameters ([World]): what they return and whether they raise;
    - the scripts ([Train], [Infer]), line by line.

    A file is the path string handed to the operating system: two
    spellings of one path are two keys of the file system.

    Then come sample inputs ([Samples]), a weakest-precondition reading of
    runs with its symbolic execution tactics ([Hoare]), and the properties
    ([InferSpec], [TrainSpec], [EntryPoints]). *)

From Stdlib Require Import ZArith QArith Ascii String.
From stdpp Require Import gmap strings list fin_maps sorting.

Local Open Scope string_scope.
Local Open Scope Z_scope.
Local Open Scope list_scope.

Set Warnings "-clear-no-such-hyp".

(** ** Python values *)

Module Py.

(** The values an argument record holds: what argparse produces for the
    flags of the two scripts and what a YAML snapshot of them loads to. *)
Inductive value :=
| VNone
| VBool (b : bool)
| VInt (z : Z)
| VStr (s : string)
| VList (l : list Z).

(** [bool(v)] *)
Definition truthy (v : value) : bool :=
  match v with
  | VNone => false
  | VBool b => b
  | VInt z => negb (z =? 0)
  | VStr s => negb (String.eqb s "")
  | VList l => match l with [] => false | _ => true end
  end.

(** [isinstance(v, str)]; note that [True] is not a string. *)
Definition isinstance_str (v : value) : bool :=
  match v with VStr _ => true | _ => false end.

(** [v == k] for an integer literal [k]; a bool compares as 0 or 1,
    values of other types are unequal to every integer. *)
Definition eq_int (v : value) (k : Z) : bool :=
  match v with
  | VInt z => z =? k
  | VBool b => (if b then 1 else 0) =? k
  | _ => false
  end.

Inductive exn :=
| AssertionError (msg : string)
| AttributeError (attr : string)
| TypeError (what : string)
| FileExistsError (path : string)
| IsADirectoryError (path : string)
| NotADirectoryError (path : string)
| FileNotFoundError (path : string)
| UnicodeDecodeError
| YAMLError (path : string)
| Raised (by_ : string).

Inductive result (A : Type) :=
| Ok (a : A)
| Err (e : exn).
Arguments Ok {A} a.
Arguments Err {A} e.

(** [v > k] for an integer literal [k]; ordering a string, a list or
    [None] against an integer raises. *)
Definition gt_int (v : value) (k : Z) : result bool :=
  match v with
  | VInt z => Ok (k <? z)
  | VBool b => Ok (k <? (if b then 1 else 0))
  | _ => Err (TypeError "'>' not supported")
  end.

(** [k + v] for an integer literal [k]. *)
Definition int_add (k : Z) (v : value) : result Z :=
  match v with
  | VInt z => Ok (k + z)
  | VBool b => Ok (k + (if b then 1 else 0))
  | _ => Err (TypeError "unsupported operand type(s) for +")
  end.

(** [argparse.Namespace]: attribute name to value.  [vars(ns)] is the
    same map, and a namespace is built from a dict of keyword arguments. *)
Abbreviation namespace := (gmap string value).

(** [ns.a] *)
Definition getattr (ns : namespace) (a : string) : result value :=
  match ns !! a with
  | Some v => Ok v
  | None => Err (AttributeError a)
  end.

(** [ns.a = v] *)
Definition setattr (ns : namespace) (a : string) (v : value) : namespace :=
  <[a := v]> ns.

(** [hasattr(ns, a)] *)
Definition hasattr (ns : namespace) (a : string) : bool :=
  bool_decide (is_Some (ns !! a)).

End Py.
Export Py.

(** ** [os.path] on POSIX path strings *)

Module OsPath.

Fixpoint endswith_sep (s : string) : bool :=
  match s with
  | EmptyString => false
  | String c EmptyString => Ascii.eqb c "/"%char
  | String _ r => endswith_sep r
  end.

Definition startswith_sep (s : string) : bool :=
  match s with
  | String c _ => Ascii.eqb c "/"%char
  | EmptyString => false
  end.

(** [posixpath.join(a, b)]: an absolute [b] replaces [a]; otherwise [b]
    is appended, with a separator unless [a] is empty or ends in one. *)
Definition join (a b : string) : string :=
  if startswith_sep b then b
  else if (String.eqb a "" || endswith_sep a)%bool then a +:+ b
  else a +:+ "/" +:+ b.

(** [osp.join] applied to attribute values: both must be strings. *)
Definition join_values (a b : value) : result string :=
  match a, b with
  | VStr a, VStr b => Ok (join a b)
  | _, _ => Err (TypeError "expected str, bytes or os.PathLike object")
  end.

(** Up to and including the last separator, and what follows it. *)
Fixpoint split_at_last_sep (s : string) : string * string :=
  match s with
  | EmptyString => ("", "")
  | String c r =>
      match split_at_last_sep r with
      | (EmptyString, t) =>
          if Ascii.eqb c "/"%char then ("/", t) else ("", String c t)
      | (h, t) => (String c h, t)
      end
  end.

(** [s.rstrip('/')] *)
Fixpoint rstrip_sep (s : string) : string :=
  match s with
  | EmptyString => ""
  | String c r =>
      match rstrip_sep r with
      | EmptyString => if Ascii.eqb c "/"%char then "" else String c ""
      | r' => String c r'
      end
  end.

(** [posixpath.split(p)]: head and tail around the last separator; the
    head loses its trailing separators unless it consists of them. *)
Definition split (p : string) : string * string :=
  let '(head, tail) := split_at_last_sep p in
  (match rstrip_sep head with EmptyString => head | h => h end, tail).

End OsPath.

(** ** The pure part of [pathlib.Path] *)

Module PathLib.

(** A parsed path: the root (empty, one slash, or exactly two) and the
    components after it, with empty and [.] components dropped. *)
Record PurePath := { root : string; tail : list string }.

Fixpoint split_sep (s : string) : list string :=
  match s with
  | EmptyString => [""]
  | String c r =>
      if Ascii.eqb c "/"%char then "" :: split_sep r
      else match split_sep r with
           | h :: t => String c h :: t
           | [] => [String c ""]
           end
  end.

(** [posixpath.splitroot]: a path that starts with exactly two slashes
    keeps both, three or more collapse to one. *)
Definition splitroot (s : string) : string :=
  match s with
  | String "/"%char (String "/"%char (String "/"%char _)) => "/"
  | String "/"%char (String "/"%char _) => "//"
  | String "/"%char _ => "/"
  | _ => ""
  end.

Definition keep_part (x : string) : bool :=
  negb (String.eqb x "") && negb (String.eqb x ".").

(** [Path(s)] *)
Definition Path (s : string) : PurePath :=
  {| root := splitroot s; tail := List.filter keep_part (split_sep s) |}.

(** [p.parent]: drops the last component; a path without components is
    its own parent. *)
Definition parent (p : PurePath) : PurePath :=
  {| root := root p; tail := removelast (tail p) |}.

(** [p / name] for a plain file name. *)
Definition joinpath (p : PurePath) (name : string) : PurePath :=
  {| root := root p; tail := tail p ++ [name] |}.

Fixpoint concat_sep (l : list string) : string :=
  match l with
  | [] => ""
  | [x] => x
  | x :: r => x +:+ "/" +:+ concat_sep r
  end.

(** [str(p)] *)
Definition str (p : PurePath) : string :=
  match root p, tail p with
  | EmptyString, [] => "."
  | r, t => r +:+ concat_sep t
  end.

End PathLib.

(** ** Effects: file system, raised exceptions and the calls made *)

Module Eff.

(** What a file holds, as far as [yaml.safe_load] can tell. *)
Inductive content :=
| Mapping (m : gmap string value)  (* a YAML mapping with string keys *)
| Scalar (v : value)               (* any other YAML document *)
| Malformed                        (* text that is not YAML *)
| Binary.                          (* bytes that are not text, e.g. a checkpoint *)

(** The file system the scripts look at: regular files and directories,
    keyed by the path string handed to the operating system. *)
Record FS := { files : gmap string content; dirs : gset string }.

(** [os.path.isfile] *)
Definition isfile (fs : FS) (p : string) : bool :=
  bool_decide (is_Some (files fs !! p)).

(** [os.path.exists] *)
Definition exists_ (fs : FS) (p : string) : bool :=
  isfile fs p || bool_decide (p ∈ dirs fs).

Inductive level := INFO | WARNING.

(** [torch.device]: the one [select_device] returns for a device
    argument, or [torch.device('cuda', index)]. *)
Inductive device :=
| SelectedDevice (spec : value)
| CudaDevice (index : value).

(** The experiment configuration [Config.fromfile] returns. *)
Abbreviation config := (gmap string value).

Inductive message :=
| ResumeFrom (checkpoint : string)
| NoArgsYaml (yaml_path save_to : string)
| ProvideConfiguration
| RectNeedless
| TrainingArgs (args : namespace)
| InitializingProcessGroup
| DestroyingProcessGroup
| SaveDirExisted
| ResultsSavedTo (save_dir : string)
| DebugWeightsOnly (v : value).

(** The calls a script makes, with their arguments. *)
Inductive event :=
| Log (l : level) (m : message)
| Stdout_print (m : message)
| Call_find_latest_checkpoint
| Call_increment_name (path : string)
| Makedirs (path : string)
| Yaml_safe_load (path : string)
| Call_check_img_size (v : value) (s floor : Z)
| Call_Config_fromfile (conf_file : value)
| Call_select_device (spec : value)
| Call_set_random_seed (seed : Z) (deterministic : bool)
| Call_save_yaml (data : namespace) (path : string)
| Call_get_envs
| Cuda_set_device (index : value)
| Call_is_nccl_available
| Init_process_group (backend : string) (init_method rank world_size : value)
                     (timeout_seconds : Z)
| New_Trainer (args : namespace) (cfg : config) (d : device)
| Trainer_calibrate (cfg : config)
| Trainer_train
| Destroy_process_group
| New_Inferer (source : value) (webcam : bool) (webcam_addr weights device
               yaml img_size : value) (half : bool)
| Inferer_infer (conf_thres iou_thres : Q) (classes : value)
                (agnostic_nms : bool) (max_det : Z) (save_dir : string)
                (save_txt save_img hide_labels hide_conf view_img : bool)
| Torch_load (args : list value) (kwargs : gmap string value).

(** The collaborators that are not part of the two scripts, taken as
    parameters: what they return, and whether a call raises. *)
Record World := {
  find_latest_checkpoint : FS → string;
  increment_name : FS → string → string;
  check_img_size : value → Z → Z → value;
  Config_fromfile : FS → value → config;
  get_envs : Z * Z * Z;
  is_nccl_available : bool;
  raises : FS → event → option exn
}.

Record outcome (A : Type) := {
  res : result A;          (* returned value or raised exception *)
  final : FS;              (* file system afterwards *)
  emitted : list event     (* calls made, oldest first *)
}.
Arguments res {A} o.
Arguments final {A} o.
Arguments emitted {A} o.

Definition M (A : Type) : Type := FS → outcome A.

#[export] Instance result_ret : MRet result := λ A a, Ok a.
#[export] Instance result_bind : MBind result := λ A B f r,
  match r with Ok a => f a | Err e => Err e end.

#[export] Instance M_ret : MRet M := λ A a fs,
  {| res := Ok a; final := fs; emitted := [] |}.

#[export] Instance M_bind : MBind M := λ A B f m fs,
  let o := m fs in
  match res o with
  | Ok a =>
      let o' := f a (final o) in
      {| res := res o'; final := final o';
         emitted := emitted o ++ emitted o' |}
  | Err e => {| res := Err e; final := final o; emitted := emitted o |}
  end.

Definition raise {A} (e : exn) : M A := λ fs,
  {| res := Err e; final := fs; emitted := [] |}.

Definition lift {A} (r : result A) : M A :=
  match r with Ok a => mret a | Err e => raise e end.

Definition emit (e : event) : M unit := λ fs,
  {| res := Ok tt; final := fs; emitted := [e] |}.

Definition get_fs : M FS := λ fs,
  {| res := Ok fs; final := fs; emitted := [] |}.

Definition put_fs (fs' : FS) : M unit := λ _,
  {| res := Ok tt; final := fs'; emitted := [] |}.

Definition log (l : level) (m : message) : M unit := emit (Log l m).

Definition pass : M unit := mret tt.

(** [assert c, msg] *)
Definition assert (c : bool) (msg : string) : M unit :=
  if c then mret tt else raise (AssertionError msg).

(** The directories [os.makedirs(p)] walks up through, nearest first: the
    heads [os.path.split] gives, as long as head and tail are not empty
    (a path that ends in a separator is split once more). *)
Fixpoint heads (n : nat) (p : string) : list string :=
  match n with
  | O => []
  | S n =>
      let '(head, tail) := OsPath.split p in
      let '(head, tail) :=
        if String.eqb tail "" then OsPath.split head else (head, tail) in
      if (negb (String.eqb head "") && negb (String.eqb tail ""))%bool
      then head :: heads n head
      else []
  end.

(** Every head is shorter than its path, so the length is fuel enough. *)
Definition ancestors (p : string) : list string :=
  heads (String.length p) p.

(** Walking up from [child] until a head exists: the directories to
    create, or the error of [os.mkdir] below a regular file. *)
Fixpoint climb (fs : FS) (child : string) (up : list string)
  : result (list string) :=
  match up with
  | [] => Ok [child]
  | head :: up =>
      if isfile fs head then Err (NotADirectoryError child)
      else if bool_decide (head ∈ dirs fs) then Ok [child]
      else match climb fs head up with
           | Ok created => Ok (child :: created)
           | Err e => Err e
           end
  end.

(** What [os.makedirs(p)] will do: the directories it creates ([p] and
    its missing ancestors), or the exception it raises. *)
Definition makedirs_plan (fs : FS) (p : string) : result (list string) :=
  if exists_ fs p then Err (FileExistsError p)
  else if String.eqb p "" then Err (FileNotFoundError p)
  else climb fs p (ancestors p).

Definition makedirs_error (fs : FS) (p : string) : option exn :=
  match makedirs_plan fs p with
  | Ok _ => None
  | Err e => Some e
  end.

(** [os.makedirs(p)], without [exist_ok]: an existing [p] is a
    [FileExistsError], the empty path a [FileNotFoundError], a regular
    file on the way a [NotADirectoryError]; otherwise [p] is created
    together with its missing ancestors.  Permissions and the other
    errors of the operating system are not modelled. *)
Definition makedirs (p : string) : M unit :=
  emit (Makedirs p);;
  fs ← get_fs;
  match makedirs_plan fs p with
  | Err e => raise e
  | Ok created =>
      put_fs {| files := files fs; dirs := list_to_set created ∪ dirs fs |}
  end.

(** [with open(p) as f: yaml.safe_load(f)], passed as keyword arguments
    to [argparse.Namespace]: only a mapping with string keys will do.
    The file is opened as text, so bytes that do not decode fail in the
    read, before the YAML parser sees them. *)
Definition namespace_from_yaml (p : string) : M namespace :=
  emit (Yaml_safe_load p);;
  fs ← get_fs;
  match files fs !! p with
  | Some (Mapping m) => mret m
  | Some (Scalar _) => raise (TypeError "argument after ** must be a mapping")
  | Some Malformed => raise (YAMLError p)
  | Some Binary => raise UnicodeDecodeError
  | None =>
      if bool_decide (p ∈ dirs fs) then raise (IsADirectoryError p)
      else raise (FileNotFoundError p)
  end.

Section Collaborators.
Context (w : World).

(** A call into a collaborator: recorded, then it returns or raises. *)
Definition call (e : event) : M unit := λ fs,
  {| res := match raises w fs e with Some x => Err x | None => Ok tt end;
     final := fs; emitted := [e] |}.

(** Modelled from the spec: [yolov6.utils.events.save_yaml] is not among
    the sources; the spec has it write the argument record as a
    snapshot file of key/value pairs that a later resume loads back. *)
Definition save_yaml (data : namespace) (p : string) : M unit :=
  call (Call_save_yaml data p);;
  fs ← get_fs;
  put_fs {| files := <[p := Mapping data]> (files fs); dirs := dirs fs |}.

End Collaborators.

End Eff.
Export Eff.

(** ** [tools/train.py] *)

Module Train.

(** [torch.load] as the scripts see it: positional and keyword
    arguments in, a loaded object out. *)
Definition loader := list value → gmap string value → M value.

Section Script.
Context (w : World).

(** [custom_torch_load], closed over [_original_torch_load]. *)
Definition custom_torch_load (_original_torch_load : loader) : loader :=
  λ args kwargs,
    let kwargs :=
      if bool_decide (is_Some (kwargs !! "weights_only")) then kwargs
      else <["weights_only" := VBool false]> kwargs in
    emit (Stdout_print
            (DebugWeightsOnly (default (VStr "default_was_True_now_False")
                                       (kwargs !! "weights_only"))));;
    _original_torch_load args kwargs.

(** The module-level statements: keep the original in
    [_original_torch_load] and rebind [torch.load]. *)
Definition monkey_patch (torch_load : loader) : loader :=
  let _original_torch_load := torch_load in
  custom_torch_load _original_torch_load.

(** Line 84: [args.rank == 0 if args.world_size > 1 else args.rank == -1] *)
Definition master_process (args : namespace) : result bool :=
  world_size ← getattr args "world_size";
  multi ← gt_int world_size 1;
  if multi : bool then rank ← getattr args "rank"; mret (eq_int rank 0)
  else rank ← getattr args "rank"; mret (eq_int rank (-1)).

(** Line 87: the checkpoint to resume from. *)
Definition checkpoint_path_of (resume : value) : M string :=
  match resume with
  | VStr s => mret s
  | _ => call w Call_find_latest_checkpoint;;
         fs ← get_fs;
         mret (find_latest_checkpoint w fs)
  end.

(** Lines 85 to 103: the checkpoint and the save directory. *)
Definition check_files (master : bool) (args : namespace) : M namespace :=
  resume ← lift (getattr args "resume");
  if truthy resume then
    checkpoint_path ← checkpoint_path_of resume;
    fs ← get_fs;
    assert (isfile fs checkpoint_path)
           ("the checkpoint path is not exist: " +:+ checkpoint_path);;
    log INFO (ResumeFrom checkpoint_path);;
    let grandparent :=
      PathLib.parent (PathLib.parent (PathLib.Path checkpoint_path)) in
    let resume_opt_file_path := PathLib.joinpath grandparent "args.yaml" in
    args ← (if exists_ fs (PathLib.str resume_opt_file_path) then
              namespace_from_yaml (PathLib.str resume_opt_file_path)
            else
              log WARNING (NoArgsYaml (PathLib.str resume_opt_file_path)
                                      (PathLib.str grandparent));;
              log WARNING ProvideConfiguration;;
              mret (setattr args "save_dir" (VStr (PathLib.str grandparent))));
    mret (setattr args "resume" (VStr checkpoint_path))
  else
    output_dir ← lift (getattr args "output_dir");
    name ← lift (getattr args "name");
    path ← lift (OsPath.join_values output_dir name);
    call w (Call_increment_name path);;
    fs ← get_fs;
    let save_dir := increment_name w fs path in
    let args := setattr args "save_dir" (VStr save_dir) in
    (if master then makedirs save_dir else pass);;
    mret args.

(** Lines 105 to 112: the image size is checked against stride 32 and
    floor 256. *)
Definition check_shape (args : namespace) : M namespace :=
  specific_shape ← lift (getattr args "specific_shape");
  if truthy specific_shape then
    rect ← lift (getattr args "rect");
    (if truthy rect then log WARNING RectNeedless else pass);;
    height ← lift (getattr args "height");
    call w (Call_check_img_size height 32 256);;
    let args := setattr args "height" (check_img_size w height 32 256) in
    width ← lift (getattr args "width");
    call w (Call_check_img_size width 32 256);;
    mret (setattr args "width" (check_img_size w width 32 256))
  else
    img_size ← lift (getattr args "img_size");
    call w (Call_check_img_size img_size 32 256);;
    mret (setattr args "img_size" (check_img_size w img_size 32 256)).

(** Lines 114 to 125: configuration, device, seed and the snapshot. *)
Definition check_device (master : bool) (args : namespace)
  : M (config * device * namespace) :=
  conf_file ← lift (getattr args "conf_file");
  call w (Call_Config_fromfile conf_file);;
  fs ← get_fs;
  let cfg := Config_fromfile w fs conf_file in
  let cfg := if hasattr cfg "training_mode" then cfg
             else setattr cfg "training_mode" (VStr "repvgg") in
  device_arg ← lift (getattr args "device");
  call w (Call_select_device device_arg);;
  let device := SelectedDevice device_arg in
  rank ← lift (getattr args "rank");
  seed ← lift (int_add 1 rank);
  call w (Call_set_random_seed seed (eq_int rank (-1)));;
  (if master : bool then
     save_dir ← lift (getattr args "save_dir");
     path ← lift (OsPath.join_values save_dir (VStr "args.yaml"));
     save_yaml w args path
   else pass);;
  mret (cfg, device, args).

(** [check_and_init(args)] *)
Definition check_and_init (args : namespace)
  : M (config * device * namespace) :=
  master ← lift (master_process args);
  args ← check_files master args;
  args ← check_shape args;
  check_device master args.

(** [args.local_rank, args.rank, args.world_size = get_envs()] *)
Definition load_envs (args : namespace) : M namespace :=
  call w Call_get_envs;;
  let '(local_rank, rank, world_size) := get_envs w in
  mret (setattr (setattr (setattr args "local_rank" (VInt local_rank))
                         "rank" (VInt rank))
                "world_size" (VInt world_size)).

(** [main(args)] *)
Definition main (args : namespace) : M unit :=
  args ← load_envs args;
  '(cfg, device, args) ← check_and_init args;
  args ← load_envs args;
  log INFO (TrainingArgs args);;
  local_rank ← lift (getattr args "local_rank");
  device ← (if negb (eq_int local_rank (-1)) then
              call w (Cuda_set_device local_rank);;
              log INFO InitializingProcessGroup;;
              call w Call_is_nccl_available;;
              let backend := if is_nccl_available w then "nccl" else "gloo" in
              dist_url ← lift (getattr args "dist_url");
              world_size ← lift (getattr args "world_size");
              call w (Init_process_group backend dist_url local_rank
                                         world_size 7200);;
              mret (CudaDevice local_rank)
            else mret device);
  call w (New_Trainer args cfg device);;
  quant ← lift (getattr args "quant");
  ptq ← (if truthy quant then
           calib ← lift (getattr args "calib"); mret (truthy calib)
         else mret false);
  if ptq : bool then
    call w (Trainer_calibrate cfg)
  else
    call w Trainer_train;;
    world_size ← lift (getattr args "world_size");
    multi ← lift (gt_int world_size 1);
    master ← (if multi : bool then
                rank ← lift (getattr args "rank"); mret (eq_int rank 0)
              else mret false);
    if master : bool then
      log INFO DestroyingProcessGroup;;
      call w Destroy_process_group
    else pass.

End Script.

End Train.

(** ** [tools/infer.py] *)

Module Infer.

Definition loader := list value → gmap string value → M value.

(** The keyword arguments of [run], as the argument parser types them. *)
Record run_args := {
  weights : value;
  source : value;
  webcam : bool;
  webcam_addr : value;
  yaml : value;
  img_size : value;
  conf_thres : Q;
  iou_thres : Q;
  max_det : Z;
  device : value;
  save_txt : bool;
  not_save_img : bool;
  save_dir : option string;
  view_img : bool;
  classes : value;
  agnostic_nms : bool;
  project : string;
  name : string;
  hide_labels : bool;
  hide_conf : bool;
  half : bool
}.

Section Script.
Context (w : World).

(** [custom_torch_load], closed over [_original_torch_load]. *)
Definition custom_torch_load (_original_torch_load : loader) : loader :=
  λ args kwargs,
    let kwargs :=
      if bool_decide (is_Some (kwargs !! "weights_only")) then kwargs
      else <["weights_only" := VBool false]> kwargs in
    emit (Stdout_print
            (DebugWeightsOnly (default (VStr "default_was_True_now_False")
                                       (kwargs !! "weights_only"))));;
    _original_torch_load args kwargs.

Definition monkey_patch (torch_load : loader) : loader :=
  let _original_torch_load := torch_load in
  custom_torch_load _original_torch_load.

(** Lines 108 to 112. *)
Definition resolve_save_dir (a : run_args) : string * string :=
  match save_dir a with
  | None =>
      let save_dir := OsPath.join (project a) (name a) in
      (save_dir, OsPath.join save_dir "labels")
  | Some save_dir => (save_dir, save_dir)
  end.

(** [run], called with the parsed arguments as keywords. *)
Definition run (a : run_args) : M unit :=
  let '(save_dir, save_txt_path) := resolve_save_dir a in
  fs ← get_fs;
  (if (negb (not_save_img a) || save_txt a) && negb (exists_ fs save_dir)
   then makedirs save_dir
   else log WARNING SaveDirExisted);;
  (if save_txt a then
     let save_txt_path := OsPath.join save_dir "labels" in
     fs ← get_fs;
     if negb (exists_ fs save_txt_path) then makedirs save_txt_path
     else pass
   else pass);;
  call w (New_Inferer (source a) (webcam a) (webcam_addr a) (weights a)
                      (device a) (yaml a) (img_size a) (half a));;
  call w (Inferer_infer (conf_thres a) (iou_thres a) (classes a)
                        (agnostic_nms a) (max_det a) save_dir (save_txt a)
                        (negb (not_save_img a)) (hide_labels a)
                        (hide_conf a) (view_img a));;
  if (save_txt a || negb (not_save_img a))%bool then
    log INFO (ResultsSavedTo save_dir)
  else pass.

(** [main(args)] *)
Definition main (a : run_args) : M unit := run a.

End Script.

End Infer.

(** ** Concrete worlds and argument records *)

Module Samples.

(** Collaborators that never raise, for the given environment. *)
Definition quiet_world (envs : Z * Z * Z) : World :=
  {| find_latest_checkpoint := λ _, "runs/train/exp/weights/last_ckpt.pt";
     increment_name := λ _ p, p;
     check_img_size := λ v _ _, v;
     Config_fromfile := λ _ _, ∅;
     get_envs := envs;
     is_nccl_available := true;
     raises := λ _ _, None |}.

(** What [get_args_parser().parse_args([])] yields for train.py. *)
Definition default_args : namespace :=
  list_to_map
    [("data_path", VStr "./data/coco.yaml");
     ("conf_file", VStr "./configs/yolov6n.py");
     ("img_size", VInt 640);
     ("rect", VBool false);
     ("batch_size", VInt 32);
     ("epochs", VInt 400);
     ("workers", VInt 8);
     ("device", VStr "0");
     ("eval_interval", VInt 20);
     ("eval_final_only", VBool false);
     ("heavy_eval_range", VInt 50);
     ("check_images", VBool false);
     ("check_labels", VBool false);
     ("output_dir", VStr "./runs/train");
     ("name", VStr "exp");
     ("dist_url", VStr "env://");
     ("gpu_count", VInt 0);
     ("local_rank", VInt (-1));
     ("resume", VBool false);
     ("write_trainbatch_tb", VBool false);
     ("stop_aug_last_n_epoch", VInt 15);
     ("save_ckpt_on_last_n_epoch", VInt (-1));
     ("distill", VBool false);
     ("distill_feat", VBool false);
     ("quant", VBool false);
     ("calib", VBool false);
     ("teacher_model_path", VNone);
     ("temperature", VInt 20);
     ("fuse_ab", VBool false);
     ("bs_per_gpu", VInt 32);
     ("specific_shape", VBool false);
     ("height", VNone);
     ("width", VNone);
     ("cache_ram", VBool false)].

Definition empty_fs : FS := {| files := ∅; dirs := ∅ |}.

(** A run directory with a checkpoint but no snapshot. *)
Definition fs_checkpoint_only : FS :=
  {| files := {[ "runs/train/exp/weights/last_ckpt.pt" := Binary ]};
     dirs := {[ "runs"; "runs/train"; "runs/train/exp";
                "runs/train/exp/weights" ]} |}.

(** What [parse_args([])] yields for infer.py. *)
Definition default_run_args : Infer.run_args :=
  {| Infer.weights := VStr "weights/yolov6s.pt";
     Infer.source := VStr "data/images";
     Infer.webcam := false;
     Infer.webcam_addr := VStr "0";
     Infer.yaml := VStr "data/coco.yaml";
     Infer.img_size := VList [640; 640];
     Infer.conf_thres := 4 # 10;
     Infer.iou_thres := 45 # 100;
     Infer.max_det := 1000;
     Infer.device := VStr "0";
     Infer.save_txt := false;
     Infer.not_save_img := false;
     Infer.save_dir := None;
     Infer.view_img := false;
     Infer.classes := VNone;
     Infer.agnostic_nms := false;
     Infer.project := "runs/inference";
     Infer.name := "exp";
     Infer.hide_labels := false;
     Infer.hide_conf := false;
     Infer.half := false |}.

End Samples.

(** ** Paths: examples *)

Example join_plain : OsPath.join "runs/train" "exp" = "runs/train/exp".
Proof. reflexivity. Qed.

Example join_trailing_sep : OsPath.join "runs/" "labels" = "runs/labels".
Proof. reflexivity. Qed.

Example grandparent_of_checkpoint :
  PathLib.str (PathLib.parent (PathLib.parent
    (PathLib.Path "runs/train/exp/weights/last_ckpt.pt"))) = "runs/train/exp".
Proof. reflexivity. Qed.

Example grandparent_of_bare_name :
  PathLib.str (PathLib.joinpath (PathLib.parent (PathLib.parent
    (PathLib.Path "last_ckpt.pt"))) "args.yaml") = "args.yaml".
Proof. reflexivity. Qed.

(** ** Reasoning about runs *)

Module Hoare.

(** [wp m fs pre Q]: started on [fs] after the calls [pre], [m] ends with a
    result, a file system and a list of calls that satisfy [Q]. *)
Definition wp {A} (m : M A) (fs : FS) (pre : list event)
    (Q : result A → FS → list event → Prop) : Prop :=
  Q (res (m fs)) (final (m fs)) (pre ++ emitted (m fs)).
Global Arguments wp : simpl never.

Lemma wp_intro {A} (m : M A) fs (Q : result A → FS → list event → Prop) :
  wp m fs [] Q → Q (res (m fs)) (final (m fs)) (emitted (m fs)).
Proof. done. Qed.

Lemma wp_bind {A B} (m : M A) (f : A → M B) fs pre Q :
  wp m fs pre (λ r s t,
    match r with Ok a => wp (f a) s t Q | Err e => Q (Err e) s t end) →
  wp (m ≫= f) fs pre Q.
Proof.
  unfold wp, mbind, M_bind.
  destruct (res (m fs)); simpl; by rewrite ?app_assoc.
Qed.

Lemma wp_ret {A} (a : A) fs pre Q : Q (Ok a) fs pre → wp (mret a) fs pre Q.
Proof. unfold wp; simpl. by rewrite app_nil_r. Qed.

Lemma wp_pass fs pre (Q : result unit → FS → list event → Prop) :
  Q (Ok tt) fs pre → wp pass fs pre Q.
Proof. apply wp_ret. Qed.

Lemma wp_raise {A} e fs pre (Q : result A → _) :
  Q (Err e) fs pre → wp (raise e) fs pre Q.
Proof. unfold wp; simpl. by rewrite app_nil_r. Qed.

Lemma wp_lift {A} (r : result A) fs pre Q : Q r fs pre → wp (lift r) fs pre Q.
Proof. destruct r; [apply wp_ret | apply wp_raise]. Qed.

Lemma wp_emit e fs pre (Q : result unit → FS → list event → Prop) :
  Q (Ok tt) fs (pre ++ [e]) → wp (emit e) fs pre Q.
Proof. done. Qed.

Lemma wp_log l m fs pre (Q : result unit → FS → list event → Prop) :
  Q (Ok tt) fs (pre ++ [Log l m]) → wp (log l m) fs pre Q.
Proof. done. Qed.

Lemma wp_get_fs fs pre (Q : result FS → FS → list event → Prop) :
  Q (Ok fs) fs pre → wp get_fs fs pre Q.
Proof. unfold wp; simpl. by rewrite app_nil_r. Qed.

Lemma wp_put_fs fs' fs pre (Q : result unit → FS → list event → Prop) :
  Q (Ok tt) fs' pre → wp (put_fs fs') fs pre Q.
Proof. unfold wp; simpl. by rewrite app_nil_r. Qed.

Lemma wp_assert (c : bool) msg fs pre (Q : result unit → FS → list event → Prop) :
  (if c then Q (Ok tt) fs pre else Q (Err (AssertionError msg)) fs pre) →
  wp (assert c msg) fs pre Q.
Proof. destruct c; [apply wp_ret | apply wp_raise]. Qed.

Lemma wp_call w e fs pre (Q : result unit → FS → list event → Prop) :
  match raises w fs e with
  | None => Q (Ok tt) fs (pre ++ [e])
  | Some x => Q (Err x) fs (pre ++ [e])
  end →
  wp (call w e) fs pre Q.
Proof. unfold wp, call; simpl. by destruct (raises w fs e). Qed.

(** A fact already known about [m] carries over to a run of [m] after
    earlier calls. *)
Lemma wp_use {A} (m : M A) fs pre (R Q : result A → FS → list event → Prop) :
  wp m fs [] R → (∀ r s t, R r s t → Q r s (pre ++ t)) → wp m fs pre Q.
Proof. unfold wp; simpl. auto. Qed.

(** Turn a goal about the outcome of [m fs] into a [wp] goal. *)
Ltac wp_start m fs :=
  cbv zeta;
  pattern (res (m fs)), (final (m fs)), (emitted (m fs));
  apply (wp_intro m fs).

(** One step of symbolic execution. *)
Ltac wp_prim :=
  lazymatch goal with
  | |- wp (mbind _ _) _ _ _ => apply wp_bind
  | |- wp (mret _) _ _ _ => apply wp_ret
  | |- wp pass _ _ _ => apply wp_pass
  | |- wp (raise _) _ _ _ => apply wp_raise
  | |- wp (lift _) _ _ _ => apply wp_lift
  | |- wp (emit _) _ _ _ => apply wp_emit
  | |- wp (log _ _) _ _ _ => apply wp_log
  | |- wp get_fs _ _ _ => apply wp_get_fs
  | |- wp (put_fs _) _ _ _ => apply wp_put_fs
  | |- wp (assert _ _) _ _ _ => apply wp_assert
  | |- wp (call _ _) _ _ _ => apply wp_call
  end; cbv beta iota.

Ltac wp_known :=
  match goal with
  | H : ?c = _ |- wp (if ?c then _ else _) _ _ _ => rewrite H
  | H : ?c = _ |- wp (match ?c with _ => _ end) _ _ _ => rewrite H
  | H : ?c = _ |- match ?c with _ => _ end => rewrite H
  | H : ?c = _ |- if ?c then _ else _ => rewrite H
  end; cbv beta iota.

Ltac wp_case :=
  lazymatch goal with
  | |- wp (if ?c then _ else _) _ _ _ => destruct c eqn:?
  | |- wp (match ?x with _ => _ end) _ _ _ => destruct x eqn:?
  | |- match ?x with _ => _ end => destruct x eqn:?
  | |- if ?c then _ else _ => destruct c eqn:?
  end.

Ltac wp_run := repeat first [wp_prim | wp_known | wp_case].

Lemma wp_makedirs p fs pre (Q : result unit → FS → list event → Prop) :
  match makedirs_plan fs p with
  | Err e => Q (Err e) fs (pre ++ [Makedirs p])
  | Ok created =>
      Q (Ok tt) {| files := files fs; dirs := list_to_set created ∪ dirs fs |}
        (pre ++ [Makedirs p])
  end →
  wp (makedirs p) fs pre Q.
Proof. intros H. unfold makedirs. wp_run; done. Qed.

(** What a plan of [os.makedirs] says about the file system. *)
Lemma climb_Ok fs child up created :
  climb fs child up = Ok created →
  exists_ fs child = false →
  child ∈ created
  ∧ Forall (λ d, exists_ fs d = false ∧ (d = child ∨ d ∈ up)) created.
Proof.
  revert child created. induction up as [|head up IH]; intros child created; simpl.
  - intros [= <-] Hc. split; [by left|]. repeat constructor; by try left.
  - destruct (isfile fs head) eqn:Hf; [done|].
    case_bool_decide as Hd.
    + intros [= <-] Hc. split; [by left|]. repeat constructor; by try left.
    + destruct (climb fs head up) as [l|] eqn:Hl; [|done].
      intros [= <-] Hc.
      assert (Hh : exists_ fs head = false).
      { unfold exists_. rewrite Hf. by apply bool_decide_eq_false. }
      destruct (IH _ _ Hl Hh) as [_ F].
      split; [by left|]. constructor; [split; [done|by left]|].
      eapply Forall_impl; [exact F|]. intros d [? [->|?]]; split; try done.
      * right. by left.
      * right. by right.
Qed.

Lemma makedirs_plan_exists fs p :
  exists_ fs p = true → makedirs_plan fs p = Err (FileExistsError p).
Proof. intros H. unfold makedirs_plan. by rewrite H. Qed.

Lemma makedirs_plan_Ok fs p created :
  makedirs_plan fs p = Ok created →
  exists_ fs p = false
  ∧ p ∈ created
  ∧ Forall (λ d, exists_ fs d = false ∧ (d = p ∨ d ∈ ancestors p)) created.
Proof.
  unfold makedirs_plan. destruct (exists_ fs p) eqn:He; [done|].
  destruct (String.eqb p ""); [done|].
  intros H. split; [done|]. by apply climb_Ok.
Qed.

Lemma makedirs_error_exists fs p :
  exists_ fs p = true → makedirs_error fs p = Some (FileExistsError p).
Proof. intros H. unfold makedirs_error. by rewrite makedirs_plan_exists. Qed.

Lemma makedirs_error_None fs p :
  makedirs_error fs p = None → exists_ fs p = false.
Proof.
  unfold makedirs_error. destruct (makedirs_plan fs p) eqn:E; [|done].
  intros _. by apply makedirs_plan_Ok in E as [? _].
Qed.

Lemma wp_save_yaml w data p fs pre (Q : result unit → FS → list event → Prop) :
  match raises w fs (Call_save_yaml data p) with
  | None => Q (Ok tt) {| files := <[p := Mapping data]> (files fs);
                         dirs := dirs fs |} (pre ++ [Call_save_yaml data p])
  | Some x => Q (Err x) fs (pre ++ [Call_save_yaml data p])
  end →
  wp (save_yaml w data p) fs pre Q.
Proof. intros H. unfold save_yaml. wp_run; done. Qed.

Lemma wp_namespace_from_yaml p fs pre
    (Q : result namespace → FS → list event → Prop) :
  (∀ r, (∀ m, r = Ok m → files fs !! p = Some (Mapping m)) →
        Q r fs (pre ++ [Yaml_safe_load p])) →
  wp (namespace_from_yaml p) fs pre Q.
Proof.
  intros H. unfold namespace_from_yaml. wp_run; apply H; congruence.
Qed.

Ltac wp_step :=
  first
    [ wp_prim
    | lazymatch goal with
      | |- wp (makedirs _) _ _ _ => apply wp_makedirs
      | |- wp (save_yaml _ _ _) _ _ _ => apply wp_save_yaml
      | |- wp (namespace_from_yaml _) _ _ _ =>
          apply wp_namespace_from_yaml; intros ? ?
      end; cbv beta iota
    | wp_known
    | wp_case ].

Ltac wp_go := repeat wp_step.

(** Use the boolean facts collected along a path. *)
Ltac use_bools :=
  rewrite ?negb_true_iff, ?negb_false_iff, ?andb_true_iff, ?orb_false_iff in *;
  repeat match goal with
         | H : ?t = true |- context [?t] => rewrite H
         | H : ?t = false |- context [?t] => rewrite H
         end.

Lemma exists_dir fs d : d ∈ dirs fs → exists_ fs d = true.
Proof.
  intros H. unfold exists_. rewrite (bool_decide_eq_true_2 _ H).
  by destruct (isfile fs d).
Qed.

Lemma exists_false_dir fs d : exists_ fs d = false → d ∉ dirs fs.
Proof. intros H Hd. apply exists_dir in Hd. congruence. Qed.



(** The existence tests met along a run, as propositions. *)
Ltac dir_facts :=
  unfold exists_ in *; simpl in *;
  rewrite ?negb_true_iff, ?negb_false_iff in *;
  repeat match goal with
         | H : (_ || _)%bool = true |- _ => apply orb_true_iff in H
         | H : (_ || _)%bool = false |- _ => apply orb_false_iff in H as [??]
         | H : bool_decide _ = true |- _ => apply bool_decide_eq_true in H
         | H : bool_decide _ = false |- _ => apply bool_decide_eq_false in H
         end;
  rewrite ?orb_true_iff, ?orb_false_iff, ?bool_decide_eq_true,
    ?bool_decide_eq_false.

(** Membership in an explicit list of calls. *)
Ltac in_list :=
  solve [repeat first [apply list_elem_of_here | apply list_elem_of_further]].

(** Membership in an explicit list of calls, by cases. *)
Ltac in_cases H :=
  repeat (apply elem_of_cons in H as [H|H]; [try discriminate H|]);
  try (by apply not_elem_of_nil in H).

End Hoare.
Import Hoare.

(** ** Paths: facts used below *)



(** ** Properties of [tools/infer.py] *)

Module InferSpec.
Import Infer.




Import Samples.

(** The default invocation creates [runs/inference/exp]. *)
Example default_run_creates_save_dir :
  emitted (run (quiet_world (0, 0, 1)) default_run_args empty_fs)
  = [Makedirs "runs/inference/exp";
     New_Inferer (VStr "data/images") false (VStr "0")
                 (VStr "weights/yolov6s.pt") (VStr "0")
                 (VStr "data/coco.yaml") (VList [640; 640]) false;
     Inferer_infer (4 # 10) (45 # 100) VNone false 1000 "runs/inference/exp"
                   false true false false false;
     Log INFO (ResultsSavedTo "runs/inference/exp")].
Proof. reflexivity. Qed.

(** [--not-save-img] without [--save-txt]: nothing is created, and the
    warning says the directory existed although it does not. *)
Definition view_only : run_args :=
  {| weights := weights default_run_args; source := source default_run_args;
     webcam := false; webcam_addr := webcam_addr default_run_args;
     yaml := yaml default_run_args; img_size := img_size default_run_args;
     conf_thres := conf_thres default_run_args;
     iou_thres := iou_thres default_run_args; max_det := 1000;
     device := device default_run_args; save_txt := false;
     not_save_img := true; save_dir := None; view_img := true;
     classes := VNone; agnostic_nms := false; project := "runs/inference";
     name := "exp"; hide_labels := false; hide_conf := false; half := false |}.

Example view_only_warns_without_directory :
  exists_ empty_fs "runs/inference/exp" = false
  ∧ emitted (run (quiet_world (0, 0, 1)) view_only empty_fs)
    = [Log WARNING SaveDirExisted;
       New_Inferer (VStr "data/images") false (VStr "0")
                   (VStr "weights/yolov6s.pt") (VStr "0")
                   (VStr "data/coco.yaml") (VList [640; 640]) false;
       Inferer_infer (4 # 10) (45 # 100) VNone false 1000 "runs/inference/exp"
                     false false false false true].
Proof. split; reflexivity. Qed.

End InferSpec.

(** ** Properties of [tools/train.py] *)

Module TrainSpec.
Import Train.

(** The checkpoint a resume run settles on. *)
Definition resolved (w : World) (fs : FS) (resume : value) : string :=
  match resume with
  | VStr s => s
  | _ => find_latest_checkpoint w fs
  end.

(** [Path(checkpoint_path).parent.parent] and the snapshot beside it. *)
Definition grandparent (checkpoint_path : string) : string :=
  PathLib.str (PathLib.parent (PathLib.parent (PathLib.Path checkpoint_path))).

Definition args_yaml_of (checkpoint_path : string) : string :=
  PathLib.str (PathLib.joinpath
    (PathLib.parent (PathLib.parent (PathLib.Path checkpoint_path))) "args.yaml").

(** The scan for the latest checkpoint, when it is needed, returns. *)
Definition scan_returns (w : World) (fs : FS) (resume : value) : Prop :=
  isinstance_str resume = false → raises w fs Call_find_latest_checkpoint = None.

Lemma wp_checkpoint_path_of w fs resume pre (Q : result string → FS → list event → Prop) :
  scan_returns w fs resume →
  Q (Ok (resolved w fs resume)) fs
    (pre ++ if isinstance_str resume then [] else [Call_find_latest_checkpoint]) →
  wp (checkpoint_path_of w resume) fs pre Q.
Proof.
  unfold scan_returns, checkpoint_path_of, resolved.
  destruct resume; simpl; intros Hs HQ; rewrite ?app_nil_r in HQ;
    wp_go; try done; by specialize (Hs eq_refl).
Qed.

Lemma bind_res_ok {A B} (m : M A) (f : A → M B) fs a :
  res (m fs) = Ok a → res ((m ≫= f) fs) = res (f a (final (m fs))).
Proof. intros H. unfold mbind, M_bind. by rewrite H. Qed.

Lemma getattr_insert_eq (a : namespace) k v : getattr (<[k := v]> a) k = Ok v.
Proof. unfold getattr. by rewrite lookup_insert_eq. Qed.

Lemma getattr_insert_ne (a : namespace) k k' v :
  k ≠ k' → getattr (<[k := v]> a) k' = getattr a k'.
Proof. intros. unfold getattr. by rewrite lookup_insert_ne. Qed.

Lemma getattr_Ok (a : namespace) k v : getattr a k = Ok v ↔ a !! k = Some v.
Proof. unfold getattr. destruct (a !! k); naive_solver. Qed.

Ltac attr_simpl :=
  unfold setattr;
  repeat first [ rewrite getattr_insert_eq
               | rewrite getattr_insert_ne by done ].

Lemma wp_namespace_from_yaml_mapping p fs pre snap
    (Q : result namespace → FS → list event → Prop) :
  files fs !! p = Some (Mapping snap) →
  Q (Ok snap) fs (pre ++ [Yaml_safe_load p]) →
  wp (namespace_from_yaml p) fs pre Q.
Proof. intros H HQ. unfold namespace_from_yaml. wp_run. done. Qed.

Ltac wp_train :=
  repeat first
    [ progress attr_simpl
    | eapply wp_namespace_from_yaml_mapping; [done|]; cbv beta iota
    | wp_step
    | apply wp_checkpoint_path_of; [done|]; cbv beta iota ].

(** Every collaborator returns. *)
Definition quiet (w : World) : Prop := ∀ fs e, raises w fs e = None.

(** The attributes [check_and_init] reads after the resume block. *)
Definition init_attrs : list string :=
  ["specific_shape"; "rect"; "height"; "width"; "img_size"; "conf_file";
   "device"].

Definition parsed (args : namespace) : Prop :=
  Forall (λ k, is_Some (args !! k)) init_attrs
  ∧ ∃ rank, args !! "rank" = Some (VInt rank).

(** C1: on a resume run, a checkpoint path that is not an existing file
    makes [check_and_init] fail with an assertion error; when the
    checkpoint exists and the [args.yaml] beside its grandparent directory
    does not, the resume block does not fail: it logs the warning, sets
    [save_dir] to the grandparent directory and [resume] to the checkpoint
    path, and [check_and_init] goes on with these arguments. *)
Theorem resume_checks_checkpoint_not_metadata
    (w : World) (args : namespace) (fs : FS) (master : bool) (resume : value) :
  master_process args = Ok master →
  getattr args "resume" = Ok resume →
  truthy resume = true →
  scan_returns w fs resume →
  let cp := resolved w fs resume in
  (isfile fs cp = false →
     res (check_and_init w args fs)
     = Err (AssertionError ("the checkpoint path is not exist: " +:+ cp)))
  ∧ (isfile fs cp = true → exists_ fs (args_yaml_of cp) = false →
     let args' := <["resume" := VStr cp]>
                    (<["save_dir" := VStr (grandparent cp)]> args) in
     let block := check_files w master args fs in
     res block = Ok args'
     ∧ final block = fs
     ∧ Log WARNING (NoArgsYaml (args_yaml_of cp) (grandparent cp)) ∈ emitted block
     ∧ res (check_and_init w args fs)
       = res ((args ← check_shape w args'; check_device w master args) fs)
     ∧ (quiet w → parsed args →
        ∃ cfg dev a, res (check_and_init w args fs) = Ok (cfg, dev, a)
                     ∧ a !! "save_dir" = Some (VStr (grandparent cp)))).
Proof.
  intros Hm Hr Ht Hs cp. subst cp. split.
  - intros Hf. wp_start (check_and_init w args) fs.
    unfold check_and_init, check_files. rewrite Hm, Hr.
    wp_train. done.
  - intros Hf He args' block. unfold args_yaml_of in He.
    assert (Hblock : res block = Ok args' ∧ final block = fs ∧
      Log WARNING (NoArgsYaml (args_yaml_of (resolved w fs resume))
                              (grandparent (resolved w fs resume))) ∈ emitted block).
    { subst block. wp_start (check_files w master args) fs.
      unfold check_files. rewrite Hr.
      wp_train. split_and?; try done. set_solver. }
    destruct Hblock as (Hres & Hfin & Hlog).
    assert (Hcont : res (check_and_init w args fs)
       = res ((args ← check_shape w args'; check_device w master args) fs)).
    { unfold check_and_init. rewrite Hm.
      rewrite (bind_res_ok _ _ _ master) by done. simpl final.
      rewrite (bind_res_ok _ _ _ args') by done.
      fold block. by rewrite Hfin. }
    split_and?; try done.
    intros Hq (Hattrs & rank & Hrank). rewrite Hcont. clear Hcont.
    unfold init_attrs in Hattrs. rewrite !Forall_cons in Hattrs.
    destruct Hattrs as ([? Hss] & [? Hre] & [? Hh] & [? Hw] & [? Hi] & [? Hc]
                        & [? Hd] & _).
    apply getattr_Ok in Hss, Hre, Hh, Hw, Hi, Hc, Hd, Hrank.
    wp_start (args ← check_shape w args'; check_device w master args) fs.
    subst args'. unfold check_shape, check_device.
    wp_train.
    all: try (rewrite Hq in *; done); try done.
    all: do 3 eexists; split; [done|]; by simplify_map_eq.
Qed.

(** *** The order of the setup steps *)

Inductive step :=
| ResolveSaveDir
| ValidateImageSize
| SelectDevice
| SeedRng
| InitProcessGroup
| HandOff.

Definition position (s : step) : nat :=
  match s with
  | ResolveSaveDir => 0
  | ValidateImageSize => 1
  | SelectDevice => 2
  | SeedRng => 3
  | InitProcessGroup => 4
  | HandOff => 5
  end.

(** The setup step a call belongs to, if any. *)
Definition step_of (e : event) : option step :=
  match e with
  | Call_find_latest_checkpoint | Call_increment_name _ | Makedirs _
  | Yaml_safe_load _
  | Log _ (ResumeFrom _) | Log _ (NoArgsYaml _ _) | Log _ ProvideConfiguration =>
      Some ResolveSaveDir
  | Log _ RectNeedless | Call_check_img_size _ _ _ => Some ValidateImageSize
  | Call_select_device _ => Some SelectDevice
  | Call_set_random_seed _ _ => Some SeedRng
  | Cuda_set_device _ | Log _ InitializingProcessGroup | Call_is_nccl_available
  | Init_process_group _ _ _ _ _ => Some InitProcessGroup
  | New_Trainer _ _ _ | Trainer_calibrate _ | Trainer_train => Some HandOff
  | _ => None
  end.

Definition steps (t : list event) : list nat := position <$> omap step_of t.

(** No call of an earlier step comes after a call of a later one. *)
Definition in_order (t : list event) : Prop := StronglySorted le (steps t).

(** Calls that [check_and_init] never makes. *)
Definition after_init (e : event) : bool :=
  match e with
  | Call_get_envs | Log _ (TrainingArgs _) | Log _ DestroyingProcessGroup
  | Destroy_process_group => true
  | _ => match step_of e with
         | Some InitProcessGroup | Some HandOff => true
         | _ => false
         end
  end.

Lemma steps_app t1 t2 : steps (t1 ++ t2) = steps t1 ++ steps t2.
Proof. unfold steps. by rewrite omap_app, fmap_app. Qed.

Lemma in_order_app t1 t2 k :
  in_order t1 → Forall (λ x, x ≤ k)%nat (steps t1) →
  in_order t2 → Forall (λ x, k ≤ x)%nat (steps t2) →
  in_order (t1 ++ t2).
Proof.
  unfold in_order. rewrite steps_app, StronglySorted_app, !Forall_forall.
  intros ? H1 ? H2. split_and?; try done.
  intros x1 x2 Hx1 Hx2. specialize (H1 x1 Hx1). specialize (H2 x2 Hx2). lia.
Qed.

(** Calls that all belong to one step are in order. *)
Definition all_in (s : step) (t : list event) : Prop :=
  Forall (λ e, step_of e = Some s ∧ after_init e = false) t.

Lemma all_in_steps s t :
  all_in s t → Forall (λ x, x = position s) (steps t).
Proof.
  unfold all_in, steps. induction 1 as [|e t [He _] _ IH]; simpl; [done|].
  rewrite He. simpl. by constructor.
Qed.

Lemma all_in_elem s t e : all_in s t → e ∈ t → step_of e = Some s.
Proof.
  unfold all_in. rewrite Forall_forall. intros H Hin. by destruct (H _ Hin).
Qed.

Lemma all_in_order s t : all_in s t → in_order t.
Proof.
  intros H%all_in_steps. unfold in_order.
  induction H as [|x l -> Hl IH]; constructor; [done|].
  eapply Forall_impl; [exact Hl|]. simpl. lia.
Qed.

Lemma all_in_steps_nonempty s t :
  all_in s t → t ≠ [] → position s ∈ steps t.
Proof.
  unfold all_in, steps. destruct 1 as [|e t [He _] _]; [done|]. intros _.
  simpl. rewrite He. simpl. set_solver.
Qed.

Ltac trace_facts :=
  simpl; unfold all_in, in_order, steps; simpl;
  repeat match goal with
         | |- _ ∧ _ => split
         | |- StronglySorted _ _ => constructor
         | |- Forall _ _ => constructor
         end; try done; try lia.

Lemma wp_checkpoint_path_of_any w fs resume pre
    (Q : result string → FS → list event → Prop) :
  (∀ r t, t = [] ∨ t = [Call_find_latest_checkpoint] → Q r fs (pre ++ t)) →
  wp (checkpoint_path_of w resume) fs pre Q.
Proof.
  intros HQ. pose proof (HQ (Ok (resolved w fs resume)) [] (or_introl eq_refl)) as H0.
  rewrite app_nil_r in H0.
  unfold checkpoint_path_of, resolved in *.
  destruct resume; wp_go; try done; apply HQ; by right.
Qed.

Lemma check_files_trace w master args fs :
  wp (check_files w master args) fs [] (λ r s t,
    all_in ResolveSaveDir t ∧ (∀ a, r = Ok a → t ≠ [])).
Proof.
  unfold check_files. wp_go.
  all: try (apply wp_checkpoint_path_of_any; intros ? ? [-> | ->]; wp_go).
  all: trace_facts.
Qed.

Lemma check_shape_trace w args fs :
  wp (check_shape w args) fs [] (λ r s t,
    all_in ValidateImageSize t
    ∧ (∀ v s f, Call_check_img_size v s f ∈ t → s = 32 ∧ f = 256)
    ∧ (∀ a, r = Ok a → t ≠ [])).
Proof.
  unfold check_shape. wp_go.
  all: trace_facts.
  all: set_solver.
Qed.

Lemma check_device_trace w master args fs :
  wp (check_device w master args) fs [] (λ r s t,
    Forall (λ e, after_init e = false) t
    ∧ in_order t
    ∧ Forall (λ x, 2 ≤ x ≤ 3)%nat (steps t)
    ∧ (∀ v s f, Call_check_img_size v s f ∉ t)
    ∧ (∀ a, r = Ok a → (2 ∈ steps t ∧ 3 ∈ steps t)%nat)).
Proof.
  unfold check_device. wp_go.
  all: trace_facts.
  all: set_solver.
Qed.

Ltac wp_block lem :=
  eapply wp_use; [apply lem|];
  intros ? ? ?; cbv beta; rewrite ?app_nil_l.

Lemma all_in_after_init s t : all_in s t → Forall (λ e, after_init e = false) t.
Proof. intros H. eapply Forall_impl; [exact H|]. naive_solver. Qed.

Lemma check_and_init_trace w args fs :
  wp (check_and_init w args) fs [] (λ r s t,
    Forall (λ e, after_init e = false) t
    ∧ in_order t
    ∧ Forall (λ x, x ≤ 3)%nat (steps t)
    ∧ (∀ v s f, Call_check_img_size v s f ∈ t → s = 32 ∧ f = 256)
    ∧ (∀ a, r = Ok a → Forall (λ k, k ∈ steps t) [0; 1; 2; 3]%nat)).
Proof.
  unfold check_and_init. wp_go; [|trace_facts; set_solver].
  wp_block check_files_trace. intros (H1 & N1).
  pose proof (all_in_steps _ _ H1) as S1. simpl in S1.
  pose proof (all_in_order _ _ H1) as O1.
  pose proof (all_in_after_init _ _ H1) as A1.
  assert (B1 : Forall (λ x, x ≤ 3)%nat (steps t)).
  { eapply Forall_impl; [exact S1|]. simpl. lia. }
  assert (C1 : ∀ v s f, Call_check_img_size v s f ∉ t).
  { intros ??? Hin. unfold all_in in H1. rewrite Forall_forall in H1.
    apply H1 in Hin. by destruct Hin. }
  destruct r as [args1|]; [|split_and?; try done; intros ??? []%C1].
  wp_go. wp_block check_shape_trace. intros (H2 & C2 & N2).
  pose proof (all_in_steps _ _ H2) as S2. simpl in S2.
  pose proof (all_in_order _ _ H2) as O2.
  pose proof (all_in_after_init _ _ H2) as A2.
  assert (O12 : in_order (t ++ t0)).
  { apply (in_order_app _ _ 0%nat); try done.
    - eapply Forall_impl; [exact S1|]; simpl; lia.
    - eapply Forall_impl; [exact S2|]; simpl; lia. }
  assert (B12 : Forall (λ x, x ≤ 1)%nat (steps (t ++ t0))).
  { rewrite steps_app, Forall_app. split.
    - eapply Forall_impl; [exact S1|]; simpl; lia.
    - eapply Forall_impl; [exact S2|]; simpl; lia. }
  destruct r as [args2|].
  2:{ split_and?; try done.
      - by apply Forall_app.
      - eapply Forall_impl; [exact B12|]. simpl. lia.
      - intros ???. rewrite elem_of_app.
        intros [[]%C1|Hin]. by eapply C2. }
  eapply wp_use; [apply check_device_trace|].
  intros r s1 t1 (A3 & O3 & B3 & C3 & N3); cbv beta.
  split_and?.
  - by rewrite !Forall_app.
  - apply (in_order_app _ _ 2%nat); try done.
    + eapply Forall_impl; [exact B12|]; simpl; lia.
    + eapply Forall_impl; [exact B3|]; simpl; lia.
  - rewrite steps_app, Forall_app. split.
    + eapply Forall_impl; [exact B12|]; simpl; lia.
    + eapply Forall_impl; [exact B3|]; simpl; lia.
  - intros ???. rewrite !elem_of_app. intros [[Hin|Hin]|Hin].
    + by apply C1 in Hin.
    + by eapply C2.
    + by apply C3 in Hin.
  - intros res3 ->. destruct (N3 _ eq_refl) as [??].
    pose proof (all_in_steps_nonempty _ _ H1 (N1 _ eq_refl)).
    pose proof (all_in_steps_nonempty _ _ H2 (N2 _ eq_refl)).
    rewrite !steps_app. repeat constructor; set_solver.
Qed.

Lemma not_in_init t e :
  Forall (λ e, after_init e = false) t → after_init e = true → e ∉ t.
Proof. rewrite Forall_forall. intros H He Hin. apply H in Hin. congruence. Qed.

Lemma in_order_main t post :
  in_order t → Forall (λ x, x ≤ 3)%nat (steps t) →
  in_order post → Forall (λ x, 3 ≤ x)%nat (steps post) →
  in_order (Call_get_envs :: t ++ post).
Proof. intros. change (in_order (t ++ post)). by eapply in_order_app. Qed.

Definition is_check (e : event) : bool :=
  match e with Call_check_img_size _ _ _ => true | _ => false end.

Lemma main_trace_in_order t post (lr : Z) :
  Forall (λ e, after_init e = false) t →
  in_order t →
  Forall (λ x, x ≤ 3)%nat (steps t) →
  (∀ v s f, Call_check_img_size v s f ∈ t → s = 32 ∧ f = 256) →
  Forall (λ k, k ∈ steps t) [0; 1; 2; 3]%nat →
  in_order post →
  Forall (λ x, 3 ≤ x)%nat (steps post) →
  Forall (λ e, is_check e = false) post →
  (∀ a c d, New_Trainer a c d ∈ post →
     (∃ b u r n s, Init_process_group b u r n s ∈ post) ↔ lr ≠ -1) →
  let l := Call_get_envs :: t ++ post in
  in_order l
  ∧ (∀ v s f, Call_check_img_size v s f ∈ l → s = 32 ∧ f = 256)
  ∧ (∀ a c d, New_Trainer a c d ∈ l →
       Forall (λ k, k ∈ steps l) [0; 1; 2; 3]%nat
       ∧ ((∃ b u r n s, Init_process_group b u r n s ∈ l) ↔ lr ≠ -1)).
Proof.
  intros A O B C N Op Bp Cp Ip l. subst l. split_and?.
  - by apply in_order_main.
  - intros v s f [?|[Hin|Hin]%elem_of_app]%elem_of_cons; [done|by eapply C|].
    rewrite Forall_forall in Cp. by apply Cp in Hin.
  - intros a c d [?|[Hin|Hin]%elem_of_app]%elem_of_cons; [done| |].
    { by apply (not_in_init _ _ A) in Hin. }
    split.
    + change (steps (Call_get_envs :: t ++ post)) with (steps (t ++ post)).
      rewrite steps_app. eapply Forall_impl; [exact N|].
      intros k Hk. simpl. set_solver.
    + rewrite <- (Ip _ _ _ Hin). split.
      * intros (b & u & r & n & s & [?|[Hi|Hi]%elem_of_app]%elem_of_cons);
          [done| |by eauto 10].
        by apply (not_in_init _ _ A) in Hi.
      * intros (b & u & r & n & s & Hi). exists b, u, r, n, s. set_solver.
Qed.

Lemma main_setup_in_order (w : World) (args : namespace) (fs : FS) :
  let t := emitted (main w args fs) in
  in_order t
  ∧ (∀ v s f, Call_check_img_size v s f ∈ t → s = 32 ∧ f = 256)
  ∧ (∀ a c d, New_Trainer a c d ∈ t →
       Forall (λ k, k ∈ steps t) [0; 1; 2; 3]%nat
       ∧ ((∃ b u r n s, Init_process_group b u r n s ∈ t)
          ↔ (get_envs w).1.1 ≠ -1)).
Proof.
  wp_start (main w args) fs. unfold main, load_envs.
  destruct (get_envs w) as [[lr rk] ws] eqn:Henv. simpl.
  wp_go.
  { trace_facts; intros ??? Hin; in_cases Hin. }
  wp_block check_and_init_trace. intros (A & O & B & C & N).
  destruct r as [[[cfg dev] args1]|].
  2:{ simpl. split_and?.
      - change (in_order t). done.
      - set_solver.
      - intros ??? [?|Hin]%elem_of_cons; [done|].
        by apply (not_in_init _ _ A) in Hin. }
  specialize (N _ eq_refl).
  wp_train.
  all: rewrite <- ?app_assoc; simpl.
  all: apply main_trace_in_order; try done.
  all: try by trace_facts.
  all: intros ??? Hin; in_cases Hin.
  all: clear Hin; simpl in * |-.
  all: rewrite ?negb_true_iff, ?negb_false_iff, ?Z.eqb_neq, ?Z.eqb_eq in * |-.
  all: split; [intros (?&?&?&?&?&Hi); first [done | in_cases Hi]|].
  all: intros ?; try done.
  all: do 5 eexists; by eapply (list_elem_of_lookup_2 _ 5).
Qed.

(** *** What [check_and_init] returns *)

Lemma bind_Ok_inv {A B} (m : M A) (f : A → M B) fs b :
  res ((m ≫= f) fs) = Ok b →
  ∃ a, res (m fs) = Ok a ∧ res (f a (final (m fs))) = Ok b.
Proof.
  unfold mbind, M_bind. destruct (res (m fs)) as [a|] eqn:E; [|done].
  intros. by exists a.
Qed.

Lemma bind_emitted_ok {A B} (m : M A) (f : A → M B) fs a :
  res (m fs) = Ok a →
  emitted ((m ≫= f) fs) = emitted (m fs) ++ emitted (f a (final (m fs))).
Proof. intros E. unfold mbind, M_bind. by rewrite E. Qed.

Lemma bind_final_ok {A B} (m : M A) (f : A → M B) fs a :
  res (m fs) = Ok a → final ((m ≫= f) fs) = final (f a (final (m fs))).
Proof. intros E. unfold mbind, M_bind. by rewrite E. Qed.

Lemma check_shape_fields w args fs :
  wp (check_shape w args) fs [] (λ r s t,
    s = fs ∧
    ∀ a', r = Ok a' →
    ∃ ss, args !! "specific_shape" = Some ss ∧
      if truthy ss then
        ∃ h wd, args !! "height" = Some h ∧ args !! "width" = Some wd
          ∧ List.filter is_check t
            = [Call_check_img_size h 32 256; Call_check_img_size wd 32 256]
          ∧ a' = <["width" := check_img_size w wd 32 256]>
                   (<["height" := check_img_size w h 32 256]> args)
      else
        ∃ sz, args !! "img_size" = Some sz
          ∧ List.filter is_check t = [Call_check_img_size sz 32 256]
          ∧ a' = <["img_size" := check_img_size w sz 32 256]> args).
Proof.
  unfold check_shape. wp_train.
  all: split; [done|]; intros a' Ha'; simplify_eq.
  all: rewrite getattr_Ok in *.
  all: eexists; split; [done|].
  all: use_bools; eauto 10.
Qed.

Lemma check_device_returns w master args fs :
  wp (check_device w master args) fs [] (λ r s t,
    ∀ cfg dev a, r = Ok (cfg, dev, a) →
      a = args
      ∧ (master = false → s = fs)
      ∧ (master = true →
           ∃ sd, args !! "save_dir" = Some (VStr sd)
             ∧ last t = Some (Call_save_yaml args (OsPath.join sd "args.yaml"))
             ∧ files s = <[OsPath.join sd "args.yaml" := Mapping args]> (files fs)
             ∧ dirs s = dirs fs)).
Proof.
  unfold check_device. wp_train.
  all: intros cfg dev a' Ha'; simplify_eq.
  all: split_and?; try done.
  intros _. rewrite getattr_Ok in *.
  match goal with
  | H : OsPath.join_values ?x _ = Ok _ |- _ =>
      destruct x; try done; simpl in H; simplify_eq
  end.
  eauto.
Qed.

(** The resume block of [check_files]. *)
Lemma check_files_resume w master args fs resume :
  getattr args "resume" = Ok resume → truthy resume = true →
  let cp := resolved w fs resume in
  wp (check_files w master args) fs [] (λ r s t,
    s = fs
    ∧ (Call_find_latest_checkpoint ∈ t ↔ isinstance_str resume = false)
    ∧ match r with
      | Ok a =>
          isfile fs cp = true
          ∧ if exists_ fs (args_yaml_of cp) then
              ∃ snap, files fs !! args_yaml_of cp = Some (Mapping snap)
                ∧ a = <["resume" := VStr cp]> snap
                ∧ Yaml_safe_load (args_yaml_of cp) ∈ t
            else
              a = <["resume" := VStr cp]>
                    (<["save_dir" := VStr (grandparent cp)]> args)
      | Err e =>
          scan_returns w fs resume → isfile fs cp = false →
          e = AssertionError ("the checkpoint path is not exist: " +:+ cp)
      end).
Proof.
  intros Hr Ht cp. subst cp. unfold check_files, args_yaml_of, grandparent.
  rewrite Hr. wp_go.
  unfold checkpoint_path_of, scan_returns, resolved.
  destruct resume; simpl in *; wp_go.
  all: split_and?; try done; try set_solver.
  all: try (intros Hs; by specialize (Hs eq_refl)).
  all: try (use_bools; done).
  all: try (eexists; split_and?; [eauto| done | set_solver]).
Qed.

(** A successful [check_and_init] went through its three blocks. *)
Lemma lift_run {A} (r : result A) fs :
  res (lift r fs) = r ∧ final (lift r fs) = fs ∧ emitted (lift r fs) = [].
Proof. by destruct r. Qed.

Lemma check_and_init_Ok w args fs cfg dev a :
  res (check_and_init w args fs) = Ok (cfg, dev, a) →
  ∃ master args1,
    let o1 := check_files w master args fs in
    let o2 := check_shape w args1 (final o1) in
    let o3 := check_device w master a (final o1) in
    master_process args = Ok master
    ∧ res o1 = Ok args1
    ∧ res o2 = Ok a
    ∧ res o3 = Ok (cfg, dev, a)
    ∧ final (check_and_init w args fs) = final o3
    ∧ emitted (check_and_init w args fs) = emitted o1 ++ emitted o2 ++ emitted o3.
Proof.
  unfold check_and_init. intros H.
  pose proof H as H0.
  apply bind_Ok_inv in H as (master & Hm & H).
  destruct (lift_run (master_process args) fs) as (L1 & L2 & L3).
  rewrite L1 in Hm. rewrite L2 in H.
  apply bind_Ok_inv in H as (args1 & H1 & H).
  apply bind_Ok_inv in H as (args2 & H2 & H).
  pose proof (wp_intro _ _ _ (check_shape_fields w args1 (final (check_files w master args fs)))) as [F2 _].
  simpl in F2. rewrite F2 in H.
  pose proof (wp_intro _ _ _ (check_device_returns w master args2 (final (check_files w master args fs))) _ _ _ H) as [-> _].
  exists master, args1. cbv zeta. split_and?; try done.
  - erewrite bind_final_ok by (rewrite L1; done). rewrite L2.
    erewrite bind_final_ok by done.
    erewrite bind_final_ok by done. by rewrite F2.
  - erewrite bind_emitted_ok by (rewrite L1; done). rewrite L2, L3. simpl.
    erewrite bind_emitted_ok by done.
    erewrite bind_emitted_ok by done. by rewrite F2.
Qed.

(** After a successful [check_and_init], an attribute that the image-size
    check does not touch is as the first block left it. *)
Lemma check_shape_other w args fs a k :
  res (check_shape w args fs) = Ok a →
  k ≠ "height" → k ≠ "width" → k ≠ "img_size" → a !! k = args !! k.
Proof.
  intros H ???.
  destruct (wp_intro _ _ _ (check_shape_fields w args fs)) as [_ F].
  destruct (F _ H) as (ss & _ & Hss).
  destruct (truthy ss).
  - destruct Hss as (?&?&_&_&_&->). by rewrite !lookup_insert_ne.
  - destruct Hss as (?&_&_&->). by rewrite !lookup_insert_ne.
Qed.

Lemma check_and_init_resume_Ok w args fs resume cfg dev a :
  getattr args "resume" = Ok resume → truthy resume = true →
  res (check_and_init w args fs) = Ok (cfg, dev, a) →
  a !! "resume" = Some (VStr (resolved w fs resume))
  ∧ isfile fs (resolved w fs resume) = true.
Proof.
  intros Hr Ht H.
  apply check_and_init_Ok in H as (master & a1 & Hm & H1 & H2 & _).
  pose proof (check_files_resume w master args fs resume Hr Ht) as F.
  cbv zeta in F. apply wp_intro in F. destruct F as (F1 & _ & F3).
  rewrite H1 in F3. destruct F3 as [Hf F3]. split; [|done].
  rewrite (check_shape_other _ _ _ _ _ H2) by done.
  destruct (exists_ fs _).
  - destruct F3 as (snap & _ & -> & _). by rewrite lookup_insert_eq.
  - subst a1. by rewrite lookup_insert_eq.
Qed.

Lemma wp_conj {A} (m : M A) fs (R1 R2 : result A → FS → list event → Prop) :
  wp m fs [] R1 → wp m fs [] R2 → wp m fs [] (λ r s t, R1 r s t ∧ R2 r s t).
Proof. done. Qed.

(** C4: on a resume run the checkpoint path is [args.resume] itself when
    that is a string, and otherwise what [find_latest_checkpoint] returns:
    the scan is called exactly in the second case, the assertion is about
    that path, and that path is what [args.resume] holds on return. *)
Theorem checkpoint_path_resolution
    (w : World) (args : namespace) (fs : FS) (master : bool) (resume : value) :
  master_process args = Ok master →
  getattr args "resume" = Ok resume →
  truthy resume = true →
  let o := check_and_init w args fs in
  let cp := match resume with
            | VStr s => s
            | _ => find_latest_checkpoint w fs
            end in
  (Call_find_latest_checkpoint ∈ emitted o ↔ isinstance_str resume = false)
  ∧ (∀ cfg dev a, res o = Ok (cfg, dev, a) →
       a !! "resume" = Some (VStr cp) ∧ isfile fs cp = true)
  ∧ (scan_returns w fs resume → isfile fs cp = false →
       res o = Err (AssertionError ("the checkpoint path is not exist: " +:+ cp))).
Proof.
  intros Hm Hr Ht o cp. subst o.
  pose proof (check_files_resume w master args fs resume Hr Ht) as F.
  cbv zeta in F. apply wp_intro in F. destruct F as (F1 & F2 & F3).
  fold (resolved w fs resume) in cp. fold cp in F3.
  split_and?.
  - unfold check_and_init. rewrite Hm.
    unfold mbind at 1, M_bind at 1. simpl.
    unfold mbind at 1, M_bind at 1.
    destruct (res (check_files w master args fs)) as [a1|] eqn:E1; simpl.
    2:{ done. }
    rewrite elem_of_app, F2.
    pose proof (wp_intro _ _ _ (check_and_init_trace w args fs)) as _.
    split; [|by left]. intros [?|Hin]; [done|]. exfalso.
    rewrite F1 in Hin.
    unfold mbind, M_bind in Hin.
    pose proof (wp_intro _ _ _ (check_shape_trace w a1 fs)) as (S1 & _).
    pose proof (all_in_after_init _ _ S1) as S1'.
    destruct (res (check_shape w a1 fs)) as [a2|] eqn:E2; simpl in Hin.
    2:{ by apply (all_in_elem _ _ _ S1) in Hin. }
    apply elem_of_app in Hin as [Hin|Hin].
    { by apply (all_in_elem _ _ _ S1) in Hin. }
    pose proof (wp_intro _ _ _ (check_device_trace w master a2
      (final (check_shape w a1 fs)))) as (_ & _ & D & _).
    unfold steps in D. rewrite Forall_fmap, Forall_forall in D.
    assert (Hs : ResolveSaveDir ∈ omap step_of
      (emitted (check_device w master a2 (final (check_shape w a1 fs))))).
    { apply list_elem_of_omap. by exists Call_find_latest_checkpoint. }
    apply D in Hs. simpl in Hs. lia.
  - intros cfg dev a H. by eapply check_and_init_resume_Ok.
  - intros Hs Hf. unfold check_and_init. rewrite Hm.
    unfold mbind at 1, M_bind at 1. simpl.
    unfold mbind at 1, M_bind at 1.
    destruct (res (check_files w master args fs)) as [a1|] eqn:E1; simpl.
    + destruct F3 as [F3 _]. congruence.
    + by rewrite (F3 Hs Hf).
Qed.

Lemma check_files_snapshot w master args fs resume snap :
  getattr args "resume" = Ok resume → truthy resume = true →
  scan_returns w fs resume →
  isfile fs (resolved w fs resume) = true →
  files fs !! args_yaml_of (resolved w fs resume) = Some (Mapping snap) →
  let o := check_files w master args fs in
  res o = Ok (<["resume" := VStr (resolved w fs resume)]> snap)
  ∧ final o = fs
  ∧ Yaml_safe_load (args_yaml_of (resolved w fs resume)) ∈ emitted o.
Proof.
  intros Hr Ht Hs Hf Hy.
  assert (He : exists_ fs (args_yaml_of (resolved w fs resume)) = true).
  { unfold exists_, isfile. by rewrite Hy. }
  unfold args_yaml_of in *.
  wp_start (check_files w master args) fs. unfold check_files. rewrite Hr.
  wp_train.
  split_and?; try done. set_solver.
Qed.

(** C9: on a resume run whose snapshot [args.yaml] exists (and loads as
    key/value pairs), [check_and_init] drops the command-line record: the
    resume block returns the snapshot's pairs with only [resume] set, to
    the resolved checkpoint path, and what follows works on that
    namespace.  In the returned arguments every attribute but [resume]
    is the snapshot's, as it stands or passed through the image-size
    check. *)
Theorem resume_rebinds_args_from_snapshot
    (w : World) (args : namespace) (fs : FS) (master : bool) (resume : value)
    (snap : namespace) :
  master_process args = Ok master →
  getattr args "resume" = Ok resume →
  truthy resume = true →
  scan_returns w fs resume →
  let cp := resolved w fs resume in
  isfile fs cp = true →
  files fs !! args_yaml_of cp = Some (Mapping snap) →
  let o := check_and_init w args fs in
  let rebound := <["resume" := VStr cp]> snap in
  res (check_files w master args fs) = Ok rebound
  ∧ res o = res ((a ← check_shape w rebound; check_device w master a) fs)
  ∧ (∀ cfg dev a, res o = Ok (cfg, dev, a) →
       a !! "resume" = Some (VStr cp)
       ∧ ∀ k, k ≠ "resume" →
           a !! k = snap !! k
           ∨ (k ∈ ["height"; "width"; "img_size"]
              ∧ a !! k = (λ v, check_img_size w v 32 256) <$> snap !! k)).
Proof.
  intros Hm Hr Ht Hs cp Hf Hy o rebound. subst o cp.
  destruct (check_files_snapshot w master args fs resume snap Hr Ht Hs Hf Hy)
    as (H1 & F1 & _).
  split_and?; [done| |].
  - unfold check_and_init. rewrite Hm.
    rewrite (bind_res_ok _ _ _ master) by done. simpl final.
    rewrite (bind_res_ok _ _ _ rebound) by done.
    by rewrite F1.
  - intros cfg dev a H.
    split; [by eapply check_and_init_resume_Ok|].
    apply check_and_init_Ok in H as (m' & a1 & Hm' & H1' & H2 & _).
    rewrite Hm in Hm'. simplify_eq. rewrite H1 in H1'. simplify_eq.
    destruct (wp_intro _ _ _ (check_shape_fields w rebound
      (final (check_files w m' args fs)))) as [_ F].
    destruct (F _ H2) as (ss & _ & Hss). clear F.
    intros k Hk. subst rebound.
    destruct (truthy ss).
    + destruct Hss as (h & wd & Hh & Hw & _ & ->).
      rewrite lookup_insert_ne in Hh, Hw by done.
      destruct (decide (k = "width")) as [->|].
      { right. rewrite lookup_insert_eq, Hw. split; [set_solver|done]. }
      destruct (decide (k = "height")) as [->|].
      { right. rewrite lookup_insert_ne, lookup_insert_eq, Hh by done.
        split; [set_solver|done]. }
      left. by rewrite !lookup_insert_ne.
    + destruct Hss as (sz & Hz & _ & ->).
      rewrite lookup_insert_ne in Hz by done.
      destruct (decide (k = "img_size")) as [->|].
      { right. rewrite lookup_insert_eq, Hz. split; [set_solver|done]. }
      left. by rewrite !lookup_insert_ne.
Qed.

Lemma check_and_init_quiet_and_resumed w args fs resume :
  getattr args "resume" = Ok resume → truthy resume = true →
  wp (check_and_init w args) fs [] (λ r s t,
    Forall (λ e, after_init e = false) t
    ∧ ∀ cfg dev a, r = Ok (cfg, dev, a) →
        a !! "resume" = Some (VStr (resolved w fs resume))
        ∧ isfile fs (resolved w fs resume) = true).
Proof.
  intros Hr Ht. apply wp_conj.
  - eapply wp_use; [apply check_and_init_trace|]. by intros ??? (?&_).
  - unfold wp. intros ????. by eapply check_and_init_resume_Ok.
Qed.

(** C6: on a resume run the checkpoint path reaches [args.resume], and
    through it the [Trainer], only after [os.path.isfile] held of it: the
    arguments [check_and_init] returns, and the arguments any [Trainer] is
    constructed with, carry in [resume] a path that is an existing file;
    when the path is not a file no [Trainer] is constructed at all. *)
Theorem checkpoint_is_file_before_use
    (w : World) (args : namespace) (fs : FS) (resume : value) :
  getattr args "resume" = Ok resume →
  truthy resume = true →
  let cp := resolved w fs resume in
  (∀ cfg dev a, res (check_and_init w args fs) = Ok (cfg, dev, a) →
     a !! "resume" = Some (VStr cp) ∧ isfile fs cp = true)
  ∧ (∀ a c d, New_Trainer a c d ∈ emitted (main w args fs) →
       a !! "resume" = Some (VStr cp) ∧ isfile fs cp = true)
  ∧ (isfile fs cp = false →
       ∀ a c d, New_Trainer a c d ∉ emitted (main w args fs)).
Proof.
  intros Hr Ht cp. subst cp.
  assert (Hmain : ∀ a c d, New_Trainer a c d ∈ emitted (main w args fs) →
    a !! "resume" = Some (VStr (resolved w fs resume))
    ∧ isfile fs (resolved w fs resume) = true).
  { wp_start (main w args) fs. unfold main, load_envs.
    destruct (get_envs w) as [[lr rk] ws] eqn:Henv. simpl.
    wp_go.
    { intros ??? Hin. in_cases Hin. }
    eapply wp_use.
    { apply (check_and_init_quiet_and_resumed _ _ _ resume); [|done].
      unfold setattr. by rewrite !getattr_insert_ne. }
    intros r s t (A & R). cbv beta. rewrite app_nil_l.
    destruct r as [[[cfg dev] args1]|].
    2:{ intros ??? [?|Hin]%elem_of_cons; [done|].
        by apply (not_in_init _ _ A) in Hin. }
    specialize (R _ _ _ eq_refl).
    wp_train.
    all: rewrite <- ?app_assoc; simpl.
    all: intros ??? [?|[Hin|Hin]%elem_of_app]%elem_of_cons; [done| |].
    all: try (by apply (not_in_init _ _ A) in Hin).
    all: in_cases Hin; simplify_eq.
    all: by rewrite !lookup_insert_ne. }
  split_and?.
  - intros ????. by eapply check_and_init_resume_Ok.
  - done.
  - intros Hf a c d Hin. apply Hmain in Hin as [_ ?]. congruence.
Qed.

Lemma check_and_init_writes_snapshot w args fs cfg dev a :
  master_process args = Ok true →
  res (check_and_init w args fs) = Ok (cfg, dev, a) →
  ∃ sd, a !! "save_dir" = Some (VStr sd)
    ∧ last (emitted (check_and_init w args fs))
      = Some (Call_save_yaml a (OsPath.join sd "args.yaml"))
    ∧ files (final (check_and_init w args fs)) !! OsPath.join sd "args.yaml"
      = Some (Mapping a).
Proof.
  intros Hm H.
  apply check_and_init_Ok in H as (m' & a1 & Hm' & H1 & H2 & H3 & Hfin & Hem).
  rewrite Hm in Hm'. simplify_eq.
  destruct (wp_intro _ _ _ (check_device_returns w true a
    (final (check_files w true args fs))) _ _ _ H3) as (_ & _ & W).
  destruct (W eq_refl) as (sd & Hsd & Hlast & Hfiles & _).
  exists sd. split_and?; [done| |].
  - rewrite Hem, !last_app, Hlast. done.
  - rewrite Hfin, Hfiles. by rewrite lookup_insert_eq.
Qed.

(** C3: a master-process run of [check_and_init] that returns has written
    the whole argument record, as returned, to [args.yaml] in the save
    directory; a resume run that finds such a snapshot beside the
    checkpoint's grandparent directory loads it and replaces the argument
    values by its key/value pairs; and the snapshot a run wrote, while it
    is still as that run left it, is the one a later resume from a
    checkpoint of that run directory gets back. *)
Theorem args_snapshot_written_and_read_back
    (w : World) (args : namespace) (fs : FS) :
  (∀ cfg dev a,
     master_process args = Ok true →
     res (check_and_init w args fs) = Ok (cfg, dev, a) →
     ∃ sd, a !! "save_dir" = Some (VStr sd)
       ∧ last (emitted (check_and_init w args fs))
         = Some (Call_save_yaml a (OsPath.join sd "args.yaml"))
       ∧ files (final (check_and_init w args fs)) !! OsPath.join sd "args.yaml"
         = Some (Mapping a))
  ∧ (∀ master resume snap,
       getattr args "resume" = Ok resume → truthy resume = true →
       scan_returns w fs resume →
       let cp := resolved w fs resume in
       isfile fs cp = true →
       files fs !! args_yaml_of cp = Some (Mapping snap) →
       res (check_files w master args fs) = Ok (<["resume" := VStr cp]> snap)
       ∧ Yaml_safe_load (args_yaml_of cp) ∈ emitted (check_files w master args fs))
  ∧ (∀ cfg dev a sd w' args' fs' master' resume',
       master_process args = Ok true →
       res (check_and_init w args fs) = Ok (cfg, dev, a) →
       a !! "save_dir" = Some (VStr sd) →
       files fs' !! OsPath.join sd "args.yaml"
       = files (final (check_and_init w args fs)) !! OsPath.join sd "args.yaml" →
       getattr args' "resume" = Ok resume' → truthy resume' = true →
       scan_returns w' fs' resume' →
       let cp := resolved w' fs' resume' in
       isfile fs' cp = true →
       args_yaml_of cp = OsPath.join sd "args.yaml" →
       res (check_files w' master' args' fs') = Ok (<["resume" := VStr cp]> a)).
Proof.
  split_and?.
  - intros. by eapply check_and_init_writes_snapshot.
  - intros master resume snap Hr Ht Hs cp Hf Hy.
    by destruct (check_files_snapshot w master args fs resume snap Hr Ht Hs Hf Hy)
      as (? & _ & ?).
  - intros cfg dev a sd w' args' fs' master' resume' Hm H Hsd Hsame Hr Ht Hs cp
      Hf Hp.
    destruct (check_and_init_writes_snapshot _ _ _ _ _ _ Hm H)
      as (sd' & Hsd' & _ & Hw).
    rewrite Hsd in Hsd'. simplify_eq.
    assert (Hy : files fs' !! args_yaml_of cp = Some (Mapping a)).
    { by rewrite Hp, Hsame. }
    by destruct (check_files_snapshot w' master' args' fs' resume' a Hr Ht Hs Hf Hy)
      as (? & _ & _).
Qed.

(** *** One object, one method *)

Definition count (p : event → bool) (t : list event) : nat :=
  length (List.filter p t).

Definition is_New_Trainer (e : event) : bool :=
  match e with New_Trainer _ _ _ => true | _ => false end.

Definition is_Trainer_method (e : event) : bool :=
  match e with Trainer_calibrate _ | Trainer_train => true | _ => false end.



(** [args.quant and args.calib] holds. *)
Definition ptq (a : namespace) : Prop :=
  ∃ q c, a !! "quant" = Some q ∧ a !! "calib" = Some c
         ∧ truthy q = true ∧ truthy c = true.

Lemma ptq_insert (a : namespace) k v :
  k ≠ "quant" → k ≠ "calib" → ptq (<[k := v]> a) ↔ ptq a.
Proof. intros. unfold ptq. by rewrite !lookup_insert_ne. Qed.

Lemma ptq_both (a : namespace) q c :
  a !! "quant" = Some q → a !! "calib" = Some c →
  truthy q = true → truthy c = true → ptq a.
Proof. intros. by exists q, c. Qed.

Lemma ptq_no_quant (a : namespace) q :
  a !! "quant" = Some q → truthy q = false → ¬ ptq a.
Proof. intros Hq Ht (q' & c & Hq' & _ & Ht' & _). congruence. Qed.

Lemma ptq_no_calib (a : namespace) c :
  a !! "calib" = Some c → truthy c = false → ¬ ptq a.
Proof. intros Hc Ht (q & c' & _ & Hc' & _ & Ht'). congruence. Qed.

Lemma count_app p t1 t2 : count p (t1 ++ t2) = (count p t1 + count p t2)%nat.
Proof. unfold count. by rewrite List.filter_app, length_app. Qed.

Lemma count_init p t :
  Forall (λ e, after_init e = false) t →
  (∀ e, p e = true → after_init e = true) →
  count p t = 0%nat.
Proof.
  unfold count. intros H Hp. induction H as [|e t He _ IH]; [done|].
  simpl. destruct (p e) eqn:E; [|done]. apply Hp in E. congruence.
Qed.

Lemma count_main p t post :
  Forall (λ e, after_init e = false) t →
  (∀ e, p e = true → after_init e = true) →
  p Call_get_envs = false →
  count p (Call_get_envs :: t ++ post) = count p post.
Proof.
  intros A Hp Hg. change (Call_get_envs :: t ++ post) with ([Call_get_envs] ++ t ++ post).
  rewrite !count_app, (count_init p t) by done. unfold count. simpl. by rewrite Hg.
Qed.

Lemma elem_of_main e t post :
  Forall (λ e, after_init e = false) t →
  after_init e = true → e ≠ Call_get_envs →
  e ∈ Call_get_envs :: t ++ post ↔ e ∈ post.
Proof.
  intros A He Hg. rewrite elem_of_cons, elem_of_app.
  pose proof (not_in_init _ _ A He). naive_solver.
Qed.

Lemma is_New_Trainer_after e : is_New_Trainer e = true → after_init e = true.
Proof. by destruct e. Qed.

Lemma is_Trainer_method_after e : is_Trainer_method e = true → after_init e = true.
Proof. by destruct e. Qed.

Lemma main_calls_trainer_once w args fs :
  let o := main w args fs in
  (count is_New_Trainer (emitted o) ≤ 1)%nat
  ∧ (count is_Trainer_method (emitted o) ≤ 1)%nat
  ∧ (res o = Ok tt →
       count is_New_Trainer (emitted o) = 1%nat
       ∧ count is_Trainer_method (emitted o) = 1%nat
       ∧ ∀ a c d, New_Trainer a c d ∈ emitted o →
           (Trainer_calibrate c ∈ emitted o ↔ ptq a)
           ∧ (Trainer_train ∈ emitted o ↔ ¬ ptq a)).
Proof.
  wp_start (main w args) fs. unfold main, load_envs.
  destruct (get_envs w) as [[lr rk] ws] eqn:Henv. simpl.
  wp_go.
  { unfold count; simpl; split_and?; try lia; done. }
  eapply wp_use; [apply check_and_init_trace|].
  intros r s t (A & _). cbv beta. rewrite app_nil_l.
  destruct r as [[[cfg dev] args1]|].
  2:{ change (Call_get_envs :: t) with ([Call_get_envs] ++ t).
      rewrite !count_app, !(count_init _ t);
        auto using is_New_Trainer_after, is_Trainer_method_after.
      unfold count; simpl; split_and?; try lia; done. }
  wp_train.
  all: rewrite <- ?app_assoc; simpl.
  all: rewrite !count_main
         by auto using is_New_Trainer_after, is_Trainer_method_after.
  all: unfold count; simpl.
  all: split_and?; try lia; try done.
  all: intros _; split_and?; try done.
  all: intros tr_args tr_cfg tr_dev Hin; apply elem_of_main in Hin; try done.
  all: rewrite !elem_of_main by done.
  all: in_cases Hin; simplify_eq.
  all: rewrite !ptq_insert by done; rewrite getattr_Ok in *.
  all: match goal with
       | |- context [ptq ?a] =>
           first [ assert (ptq a) by eauto using ptq_both
                 | assert (¬ ptq a) by eauto using ptq_no_quant, ptq_no_calib ]
       end.
  all: split; split.
  all: first
    [ solve [intros _; in_list]
    | solve [intros _; assumption]
    | solve [intros Hm; in_cases Hm]
    | solve [intros; exfalso; auto] ].
Qed.

Lemma last_main t post e :
  last post = Some e → last (Call_get_envs :: t ++ post) = Some e.
Proof.
  intros H. change (Call_get_envs :: t ++ post) with ([Call_get_envs] ++ t ++ post).
  by rewrite !last_app, H.
Qed.

Lemma count_one (p : event → bool) t :
  count p t = 1%nat → ∃ e, e ∈ t ∧ p e = true.
Proof.
  unfold count. intros H.
  destruct (List.filter p t) as [|e l] eqn:E; [done|].
  assert (Hin : In e (List.filter p t)) by (rewrite E; by left).
  apply filter_In in Hin as [Hin He]. exists e. by rewrite list_elem_of_In.
Qed.

(** C5: a run of [main] goes through its setup steps in this order:
    the save directory, the image-size check (against stride 32 and floor
    256, of [height] and [width] when [specific_shape] is set and of
    [img_size] otherwise), the device, the random seed, the process group
    when there is one, and only then the [Trainer].  A run that returns
    has taken all four setup steps, constructed the [Trainer] and called
    one of its methods.  Whenever the [Trainer] is constructed all four
    setup steps have been taken, and a process group has been joined
    exactly when the local rank is not -1. *)
Theorem setup_steps_in_order (w : World) (args : namespace) (fs : FS) :
  let t := emitted (main w args fs) in
  in_order t
  ∧ (∀ v s f, Call_check_img_size v s f ∈ t → s = 32 ∧ f = 256)
  ∧ (res (main w args fs) = Ok tt →
       Forall (λ k, k ∈ steps t) [0; 1; 2; 3; 5]%nat
       ∧ ∃ a c d e, New_Trainer a c d ∈ t ∧ e ∈ t ∧ is_Trainer_method e = true)
  ∧ (∀ a c d, New_Trainer a c d ∈ t →
       Forall (λ k, k ∈ steps t) [0; 1; 2; 3]%nat
       ∧ ((∃ b u r n s, Init_process_group b u r n s ∈ t)
          ↔ (get_envs w).1.1 ≠ -1))
  ∧ (∀ args0 fs0 a',
       res (check_shape w args0 fs0) = Ok a' →
       ∃ ss, args0 !! "specific_shape" = Some ss ∧
         if truthy ss then
           ∃ h wd, args0 !! "height" = Some h ∧ args0 !! "width" = Some wd
             ∧ List.filter is_check (emitted (check_shape w args0 fs0))
               = [Call_check_img_size h 32 256; Call_check_img_size wd 32 256]
             ∧ a' = <["width" := check_img_size w wd 32 256]>
                      (<["height" := check_img_size w h 32 256]> args0)
         else
           ∃ sz, args0 !! "img_size" = Some sz
             ∧ List.filter is_check (emitted (check_shape w args0 fs0))
               = [Call_check_img_size sz 32 256]
             ∧ a' = <["img_size" := check_img_size w sz 32 256]> args0).
Proof.
  cbv zeta.
  destruct (main_setup_in_order w args fs) as (H1 & H2 & H3).
  split_and?; try done.
  - intros Hres.
    destruct (main_calls_trainer_once w args fs) as (_ & _ & Hc).
    destruct (Hc Hres) as (Hn & Hm & _).
    apply count_one in Hn as (e & Hin & He).
    apply count_one in Hm as (e' & Hin' & He').
    destruct e; try discriminate He.
    destruct (H3 _ _ _ Hin) as [F _].
    split; [|by eauto 10].
    assert (H5 : (5 ∈ steps (emitted (main w args fs)))%nat).
    { unfold steps. apply list_elem_of_fmap. exists HandOff. split; [done|].
      apply list_elem_of_omap. eexists. split; [exact Hin|done]. }
    rewrite !Forall_cons in F. rewrite !Forall_cons. naive_solver.
  - intros args0 fs0 a' H.
    destruct (wp_intro _ _ _ (check_shape_fields w args0 fs0)) as [_ F].
    by apply F.
Qed.

(** C2 (as the code has it): on a run of [main] that trains and returns,
    the process group is torn down exactly when the world size is above 1
    and the rank is 0, and then it is the last thing the run does; a group
    is joined exactly when the local rank is not -1. *)
Theorem process_group_torn_down_by_master_only
    (w : World) (args : namespace) (fs : FS) :
  let o := main w args fs in
  res o = Ok tt →
  Trainer_train ∈ emitted o →
  (Destroy_process_group ∈ emitted o
   ↔ 1 < (get_envs w).2 ∧ (get_envs w).1.2 = 0)
  ∧ ((∃ b u r n s, Init_process_group b u r n s ∈ emitted o)
     ↔ (get_envs w).1.1 ≠ -1)
  ∧ (Destroy_process_group ∈ emitted o
     → last (emitted o) = Some Destroy_process_group).
Proof.
  wp_start (main w args) fs. unfold main, load_envs.
  destruct (get_envs w) as [[lr rk] ws] eqn:Henv. simpl.
  wp_go; [done|].
  eapply wp_use; [apply check_and_init_trace|].
  intros r s t (A & _). cbv beta. rewrite app_nil_l.
  destruct r as [[[cfg dev] args1]|]; [|done].
  wp_train.
  all: try done.
  all: rewrite <- ?app_assoc; simpl.
  all: intros _ Hin; apply elem_of_main in Hin; try done.
  all: in_cases Hin.
  all: rewrite !elem_of_main by done.
  all: simpl in * |-.
  all: rewrite ?negb_true_iff, ?negb_false_iff in * |-.
  all: simplify_eq.
  all: rewrite ?Z.ltb_lt, ?Z.ltb_ge, ?Z.eqb_eq, ?Z.eqb_neq in * |-.
  all: split_and?.
  all: first
    [ (* torn down exactly on the master of a multi-process job *)
      solve [split;
             [ intros Hd; first [by split; [lia|] | in_cases Hd]
             | intros [? ?]; first [in_list | lia | done] ]]
    | (* joined exactly with a local rank *)
      solve [split;
             [ intros (?&?&?&?&?&Hi); apply elem_of_main in Hi; [|done..];
               first [done | lia | in_cases Hi]
             | intros ?; first [done | lia
                 | do 5 eexists; apply elem_of_main; [done..|]; in_list] ]]
    | (* torn down last *)
      solve [intros Hd; first [by apply last_main | in_cases Hd]] ].
Qed.

(** *** Concrete runs *)

Import Samples.

(** A single-process run: no local rank, rank -1, world size 1. *)
Definition single : World := quiet_world (-1, -1, 1).

(** The parsed arguments as [main] hands them to [check_and_init]. *)
Definition with_envs (w : World) (args : namespace) : namespace :=
  let '(local_rank, rank, world_size) := get_envs w in
  <["world_size" := VInt world_size]>
    (<["rank" := VInt rank]> (<["local_rank" := VInt local_rank]> args)).

(** [--resume] without a path. *)
Definition resume_latest : namespace :=
  with_envs single (<["resume" := VBool true]> default_args).

Definition latest : string := "runs/train/exp/weights/last_ckpt.pt".

(** The snapshot an earlier run left in the run directory. *)
Definition snapshot : namespace :=
  <["save_dir" := VStr "runs/train/exp"]> (with_envs single default_args).

Definition fs_with_snapshot : FS :=
  {| files := {[ latest := Binary;
                 "runs/train/exp/args.yaml" := Mapping snapshot ]};
     dirs := {[ "runs"; "runs/train"; "runs/train/exp";
                "runs/train/exp/weights" ]} |}.

Lemma single_quiet : quiet single.
Proof. by intros ??. Qed.

Lemma resume_latest_parsed : parsed resume_latest.
Proof.
  split; [|by exists (-1)].
  unfold init_attrs.
  repeat (apply Forall_cons; split; [eexists; vm_compute; reflexivity|]).
  by apply Forall_nil.
Qed.

Lemma scan_returns_single fs resume : scan_returns single fs resume.
Proof. by intros ?. Qed.

Lemma resume_without_snapshot_runs :
  ∃ cfg dev a,
    res (check_and_init single resume_latest fs_checkpoint_only) = Ok (cfg, dev, a)
    ∧ a !! "save_dir" = Some (VStr (grandparent latest)).
Proof.
  refine (proj2 (proj2 (proj2 (proj2 (proj2
    (resume_checks_checkpoint_not_metadata single resume_latest
       fs_checkpoint_only true (VBool true) _ _ _ _) _ _)))) _ _).
  all: first [ apply single_quiet | apply resume_latest_parsed
             | apply scan_returns_single | by vm_compute ].
Defined.

Lemma resume_latest_scans :
  Call_find_latest_checkpoint
  ∈ emitted (check_and_init single resume_latest fs_checkpoint_only).
Proof.
  refine (proj2 (proj1 (checkpoint_path_resolution single resume_latest
    fs_checkpoint_only true (VBool true) _ _ _)) _); vm_compute; reflexivity.
Defined.

Definition returns {A} (r : result A) : bool :=
  match r with Ok _ => true | Err _ => false end.

Lemma returns_Ok {A} (r : result A) : returns r = true → ∃ a, r = Ok a.
Proof. destruct r; [by eexists|done]. Qed.

Lemma resume_latest_checkpoint_is_file :
  ∃ cfg dev a,
    res (check_and_init single resume_latest fs_checkpoint_only) = Ok (cfg, dev, a)
    ∧ a !! "resume" = Some (VStr latest)
    ∧ isfile fs_checkpoint_only latest = true.
Proof.
  destruct (returns_Ok (res (check_and_init single resume_latest
    fs_checkpoint_only))) as [[[cfg dev] a] E]; [vm_compute; reflexivity|].
  exists cfg, dev, a. split; [exact E|].
  refine (proj1 (checkpoint_is_file_before_use single resume_latest
    fs_checkpoint_only (VBool true) _ _) cfg dev a E); vm_compute; reflexivity.
Defined.

Lemma snapshot_beside_latest :
  files fs_with_snapshot !! args_yaml_of (resolved single fs_with_snapshot (VBool true))
  = Some (Mapping snapshot).
Proof.
  change (args_yaml_of _) with "runs/train/exp/args.yaml".
  unfold fs_with_snapshot. simpl files.
  rewrite lookup_insert_ne by (unfold latest; discriminate).
  apply lookup_singleton_eq.
Qed.

Lemma resume_latest_loads_snapshot :
  res (check_files single true resume_latest fs_with_snapshot)
  = Ok (<["resume" := VStr latest]> snapshot).
Proof.
  refine (proj1 (resume_rebinds_args_from_snapshot single resume_latest
    fs_with_snapshot true (VBool true) snapshot _ _ _ _ _ _));
    first [ apply scan_returns_single | apply snapshot_beside_latest
          | vm_compute; reflexivity ].
Defined.

(** A first run into [runs/train/exp]. *)
Definition first_args : namespace :=
  with_envs single (<["output_dir" := VStr "runs/train"]> default_args).

Lemma first_run_writes_snapshot :
  ∃ cfg dev a sd,
    res (check_and_init single first_args empty_fs) = Ok (cfg, dev, a)
    ∧ a !! "save_dir" = Some (VStr sd)
    ∧ files (final (check_and_init single first_args empty_fs))
        !! OsPath.join sd "args.yaml" = Some (Mapping a).
Proof.
  destruct (returns_Ok (res (check_and_init single first_args empty_fs)))
    as [[[cfg dev] a] E]; [vm_compute; reflexivity|].
  destruct (proj1 (args_snapshot_written_and_read_back single first_args
    empty_fs) cfg dev a) as (sd & Hsd & _ & Hfile);
    [vm_compute; reflexivity|exact E|].
  exists cfg, dev, a, sd. exact (conj E (conj Hsd Hfile)).
Defined.

Lemma default_run_takes_every_step :
  Forall (λ k, k ∈ steps (emitted (main single default_args empty_fs)))
         [0; 1; 2; 3; 5]%nat.
Proof.
  refine (proj1 (proj1 (proj2 (proj2 (setup_steps_in_order single
    default_args empty_fs))) _)).
  vm_compute. reflexivity.
Defined.

(** A worker of a two-process job, and its master. *)
Definition worker : World := quiet_world (1, 1, 2).
Definition master : World := quiet_world (0, 0, 2).

Definition is_Destroy (e : event) : bool :=
  match e with Destroy_process_group => true | _ => false end.

Lemma not_elem_of_existsb (p : event → bool) t e :
  existsb p t = false → p e = true → e ∉ t.
Proof.
  intros H He Hin. apply list_elem_of_In in Hin.
  assert (existsb p t = true) by (apply existsb_exists; eauto). congruence.
Qed.

(** C2, as stated, fails: the worker with rank 1 of a two-process job
    joins the process group, trains, returns, and never tears the group
    down. *)
Lemma worker_leaves_group_standing :
  res (main worker default_args empty_fs) = Ok tt
  ∧ Init_process_group "nccl" (VStr "env://") (VInt 1) (VInt 2) 7200
    ∈ emitted (main worker default_args empty_fs)
  ∧ Trainer_train ∈ emitted (main worker default_args empty_fs)
  ∧ Destroy_process_group ∉ emitted (main worker default_args empty_fs).
Proof.
  split_and?.
  - vm_compute. reflexivity.
  - apply (list_elem_of_lookup_2 _ 11). vm_compute. reflexivity.
  - apply (list_elem_of_lookup_2 _ 13). vm_compute. reflexivity.
  - apply (not_elem_of_existsb is_Destroy); [|done]. vm_compute. reflexivity.
Qed.

Lemma master_tears_group_down :
  Destroy_process_group ∈ emitted (main master default_args empty_fs).
Proof.
  refine (proj2 (proj1 (process_group_torn_down_by_master_only master
    default_args empty_fs _ _)) _).
  - vm_compute. reflexivity.
  - apply (list_elem_of_lookup_2 _ 15). vm_compute. reflexivity.
  - split; [vm_compute; reflexivity|reflexivity].
Defined.

End TrainSpec.

(** ** Properties of both entry points *)

Module EntryPoints.
Import Train TrainSpec Samples.


(** C8: once a script has rebound [torch.load], a call that passes no
    [weights_only] keyword reaches the original loader with
    [weights_only=False] added and everything else as given, and a call
    that passes [weights_only] reaches it with the arguments unchanged;
    either way one debug line is printed first.  Both scripts do this. *)
Theorem torch_load_defaults_weights_only
    (_original_torch_load : Train.loader) (args : list value)
    (kwargs : gmap string value) (fs : FS) :
  let forwarded kw patched :=
    res (patched args kwargs fs) = res (_original_torch_load args kw fs)
    ∧ final (patched args kwargs fs) = final (_original_torch_load args kw fs)
    ∧ ∃ v, kw !! "weights_only" = Some v
        ∧ emitted (patched args kwargs fs)
          = Stdout_print (DebugWeightsOnly v)
            :: emitted (_original_torch_load args kw fs) in
  (kwargs !! "weights_only" = None →
     forwarded (<["weights_only" := VBool false]> kwargs)
               (Train.monkey_patch _original_torch_load)
     ∧ forwarded (<["weights_only" := VBool false]> kwargs)
                 (Infer.monkey_patch _original_torch_load))
  ∧ (is_Some (kwargs !! "weights_only") →
       forwarded kwargs (Train.monkey_patch _original_torch_load)
       ∧ forwarded kwargs (Infer.monkey_patch _original_torch_load)).
Proof.
  cbv zeta. unfold Train.monkey_patch, Infer.monkey_patch,
    Train.custom_torch_load, Infer.custom_torch_load.
  split.
  - intros Hn. rewrite bool_decide_eq_false_2 by (rewrite Hn; by inversion 1).
    rewrite lookup_insert_eq. simpl.
    unfold mbind, M_bind; simpl.
    split; (split_and?; [done|done|by eexists]).
  - intros [v Hv]. rewrite bool_decide_eq_true_2 by (by rewrite Hv).
    rewrite Hv. simpl.
    unfold mbind, M_bind; simpl.
    split; (split_and?; [done|done|by eexists]).
Qed.


(** An original loader: it records the call it receives. *)
Definition recording_loader : Train.loader :=
  λ args kwargs, call single (Torch_load args kwargs);; mret VNone.

Lemma patched_load_adds_weights_only :
  emitted (Train.monkey_patch recording_loader [VStr "weights/yolov6s.pt"] ∅ empty_fs)
  = [Stdout_print (DebugWeightsOnly (VBool false));
     Torch_load [VStr "weights/yolov6s.pt"] (<["weights_only" := VBool false]> ∅)].
Proof.
  destruct (proj1 (proj1 (torch_load_defaults_weights_only recording_loader
    [VStr "weights/yolov6s.pt"] ∅ empty_fs) (lookup_empty _)))
    as (_ & _ & v & Hv & ->).
  rewrite lookup_insert_eq in Hv. by injection Hv as <-.
Defined.

End EntryPoints.

(** ** Further properties of the two scripts *)

Module Coverage.
Import Train TrainSpec Samples.

(** *** Who touches the file system *)

(** Calls that change the file system. *)
Definition touches_fs (e : event) : bool :=
  match e with
  | Makedirs _ | Call_save_yaml _ _ => true
  | _ => false
  end.

(** A computation that leaves the file system as it found it. *)
Definition leaves_fs {A} (m : M A) : Prop :=
  ∀ fs, final (m fs) = fs ∧ Forall (λ e, touches_fs e = false) (emitted (m fs)).

Lemma leaves_bind {A B} (m : M A) (f : A → M B) :
  leaves_fs m → (∀ a, leaves_fs (f a)) → leaves_fs (m ≫= f).
Proof.
  intros Hm Hf fs. destruct (Hm fs) as [E1 F1].
  unfold mbind, M_bind. destruct (res (m fs)) as [a|]; simpl; [|done].
  destruct (Hf a (final (m fs))) as [E2 F2].
  split; [congruence|by apply Forall_app].
Qed.

Lemma leaves_bind_Ok {A B} (a : A) (f : A → M B) :
  leaves_fs (f a) → leaves_fs (lift (Ok a) ≫= f).
Proof.
  intros Hf fs. destruct (Hf fs) as [E F].
  unfold mbind, M_bind; simpl. done.
Qed.

Lemma leaves_ret {A} (a : A) : leaves_fs (mret a : M A).
Proof. by intros fs. Qed.

Lemma leaves_raise {A} e : leaves_fs (raise e : M A).
Proof. by intros fs. Qed.

Lemma leaves_lift {A} (r : result A) : leaves_fs (lift r).
Proof. destruct r; [apply leaves_ret | apply leaves_raise]. Qed.

Lemma leaves_get_fs : leaves_fs get_fs.
Proof. by intros fs. Qed.

Lemma leaves_assert c msg : leaves_fs (assert c msg).
Proof. destruct c; [apply leaves_ret | apply leaves_raise]. Qed.

Lemma leaves_emit e : touches_fs e = false → leaves_fs (emit e).
Proof. intros He fs. split; [done|]. by repeat constructor. Qed.

Lemma leaves_call w e : touches_fs e = false → leaves_fs (call w e).
Proof. intros He fs. split; [done|]. by repeat constructor. Qed.

Ltac leaves :=
  repeat first
    [ apply leaves_ret | apply leaves_raise | apply leaves_lift
    | apply leaves_get_fs | apply leaves_assert
    | apply leaves_emit; reflexivity | apply leaves_call; reflexivity
    | lazymatch goal with
      | |- leaves_fs (if ?c then _ else _) => destruct c
      | |- leaves_fs (match ?x with _ => _ end) => destruct x
      | |- leaves_fs (mbind _ _) => apply leaves_bind; [|intros ?]
      end ].

Lemma leaves_checkpoint_path_of w resume : leaves_fs (checkpoint_path_of w resume).
Proof. unfold checkpoint_path_of. leaves. Qed.

Lemma leaves_namespace_from_yaml p : leaves_fs (namespace_from_yaml p).
Proof. unfold namespace_from_yaml. leaves. Qed.

Lemma leaves_check_files w args : leaves_fs (check_files w false args).
Proof.
  unfold check_files, log, pass.
  leaves; first [apply leaves_checkpoint_path_of | apply leaves_namespace_from_yaml].
Qed.

Lemma leaves_check_shape w args : leaves_fs (check_shape w args).
Proof. unfold check_shape, log, pass. leaves. Qed.

Lemma leaves_check_device w args : leaves_fs (check_device w false args).
Proof. unfold check_device, pass. leaves. Qed.

Lemma leaves_check_and_init w args :
  master_process args ≠ Ok true → leaves_fs (check_and_init w args).
Proof.
  intros Hm. unfold check_and_init.
  destruct (master_process args) as [[]|]; [done| |]; simpl.
  - apply leaves_bind_Ok.
    leaves; first [apply leaves_check_files | apply leaves_check_shape
                  | apply leaves_check_device].
  - intros fs. unfold mbind, M_bind; simpl. by split.
Qed.

Lemma leaves_bind_res {A B} (m : M A) (f : A → M B) (P : A → Prop) :
  leaves_fs m → (∀ fs a, res (m fs) = Ok a → P a) →
  (∀ a, P a → leaves_fs (f a)) → leaves_fs (m ≫= f).
Proof.
  intros Hm HP Hf fs. destruct (Hm fs) as [E1 F1].
  unfold mbind, M_bind. destruct (res (m fs)) as [a|] eqn:E; simpl; [|done].
  destruct (Hf a (HP _ _ E) (final (m fs))) as [E2 F2].
  split; [congruence|by apply Forall_app].
Qed.

(** [master_process] as [main] computes it, from the environment. *)
Definition env_master (w : World) : bool :=
  if 1 <? (get_envs w).2 then (get_envs w).1.2 =? 0
  else (get_envs w).1.2 =? -1.

Lemma load_envs_res w args fs a :
  res (load_envs w args fs) = Ok a → a = with_envs w args.
Proof.
  unfold load_envs, with_envs. destruct (get_envs w) as [[lr rk] ws].
  unfold mbind, M_bind, call; simpl.
  destruct (raises w fs Call_get_envs); simpl; [done|]. by intros [= <-].
Qed.

Lemma leaves_load_envs w args : leaves_fs (load_envs w args).
Proof.
  unfold load_envs. destruct (get_envs w) as [[lr rk] ws]. leaves.
Qed.

Lemma master_process_with_envs w args :
  master_process (with_envs w args) = Ok (env_master w).
Proof.
  unfold master_process, with_envs, env_master.
  destruct (get_envs w) as [[lr rk] ws]. simpl.
  rewrite getattr_insert_eq. simpl.
  destruct (1 <? ws); simpl;
    by rewrite getattr_insert_ne, getattr_insert_eq by done.
Qed.

(** X1: only the master process touches the file system.  When the
    environment does not make this process the master (rank 0 of several
    processes, or rank -1 of one), a run of [main] creates no directory,
    writes no snapshot, and leaves the file system as it was. *)
Theorem only_master_touches_file_system
    (w : World) (args : namespace) (fs : FS) :
  env_master w = false →
  final (main w args fs) = fs
  ∧ Forall (λ e, touches_fs e = false) (emitted (main w args fs)).
Proof.
  intros Hm. revert fs. change (leaves_fs (main w args)). unfold main.
  apply (leaves_bind_res _ _ (λ a, a = with_envs w args));
    [apply leaves_load_envs|apply load_envs_res|intros ? ->].
  apply leaves_bind.
  { apply leaves_check_and_init. rewrite master_process_with_envs, Hm. done. }
  intros [[cfg dev] a].
  apply leaves_bind; [apply leaves_load_envs|intros ?].
  unfold log, pass. leaves.
Qed.

Lemma worker_leaves_file_system :
  final (main worker default_args empty_fs) = empty_fs
  ∧ Forall (λ e, touches_fs e = false) (emitted (main worker default_args empty_fs)).
Proof.
  exact (only_master_touches_file_system worker default_args empty_fs eq_refl).
Defined.

(** *** A fresh (non-resume) run *)

Lemma check_files_fresh w master args fs resume :
  getattr args "resume" = Ok resume → truthy resume = false →
  wp (check_files w master args) fs [] (λ r s t,
    ∀ a, r = Ok a →
      ∃ od nm,
        args !! "output_dir" = Some (VStr od) ∧ args !! "name" = Some (VStr nm)
        ∧ a = <["save_dir" := VStr (increment_name w fs (OsPath.join od nm))]> args
        ∧ if master then
            ∃ created,
              makedirs_plan fs (increment_name w fs (OsPath.join od nm))
              = Ok created
              ∧ s = {| files := files fs;
                       dirs := list_to_set created ∪ dirs fs |}
          else s = fs).
Proof.
  intros Hr Ht. unfold check_files. rewrite Hr. wp_train.
  all: intros a' Ha'; simplify_eq.
  all: rewrite getattr_Ok in *.
  all: repeat match goal with
         | H : OsPath.join_values ?x ?y = Ok _ |- _ =>
             destruct x, y; try done; simpl in H; simplify_eq
         end.
  all: eexists _, _; split_and?; eauto.
Qed.

(** X2: a run that does not resume works in the directory
    [increment_name(join(output_dir, name))]: on return [save_dir] holds
    it, [resume] and every attribute other than [save_dir] and the checked
    image sizes are as they came in, and on the master process the
    directory, which did not exist, has been created and holds the
    snapshot [args.yaml] of the returned arguments. *)
Theorem fresh_run_save_dir
    (w : World) (args : namespace) (fs : FS) (resume : value)
    (cfg : config) (dev : device) (a : namespace) :
  getattr args "resume" = Ok resume →
  truthy resume = false →
  res (check_and_init w args fs) = Ok (cfg, dev, a) →
  ∃ od nm master,
    args !! "output_dir" = Some (VStr od) ∧ args !! "name" = Some (VStr nm)
    ∧ master_process args = Ok master
    ∧ let sd := increment_name w fs (OsPath.join od nm) in
      let fs' := final (check_and_init w args fs) in
      a !! "save_dir" = Some (VStr sd)
      ∧ a !! "resume" = Some resume
      ∧ (∀ k, k ≠ "save_dir" → k ≠ "height" → k ≠ "width" → k ≠ "img_size" →
           a !! k = args !! k)
      ∧ (master = true →
           exists_ fs sd = false
           ∧ sd ∈ dirs fs'
           ∧ files fs' !! OsPath.join sd "args.yaml" = Some (Mapping a)).
Proof.
  intros Hr Ht H.
  apply check_and_init_Ok in H as (master & a1 & Hm & H1 & H2 & H3 & Hfin & _).
  pose proof (wp_intro _ _ _ (check_files_fresh w master args fs resume Hr Ht)
    _ H1) as (od & nm & Hod & Hnm & -> & Hfs).
  exists od, nm, master. split_and?; try done. cbv zeta.
  assert (Hother : ∀ k, k ≠ "save_dir" → k ≠ "height" → k ≠ "width" →
            k ≠ "img_size" → a !! k = args !! k).
  { intros k ????. rewrite (check_shape_other _ _ _ _ _ H2) by done.
    by rewrite lookup_insert_ne. }
  assert (Hsd : a !! "save_dir"
            = Some (VStr (increment_name w fs (OsPath.join od nm)))).
  { rewrite (check_shape_other _ _ _ _ _ H2) by done.
    by rewrite lookup_insert_eq. }
  split_and?; try done.
  - rewrite Hother by done. by apply getattr_Ok.
  - intros ->. destruct Hfs as (created & Hplan & Hfs).
    apply makedirs_plan_Ok in Hplan as (Hex & Hin & _). split; [done|].
    destruct (wp_intro _ _ _ (check_device_returns w true a
      (final (check_files w true args fs))) _ _ _ H3) as (_ & _ & W).
    destruct (W eq_refl) as (sd' & Hsd' & _ & Hfiles & Hdirs).
    rewrite Hsd in Hsd'. simplify_eq.
    rewrite Hfin. split.
    + rewrite Hdirs, Hfs. simpl.
      apply elem_of_union. left. by apply elem_of_list_to_set.
    + rewrite Hfiles. by rewrite lookup_insert_eq.
Qed.

Lemma makedirs_existing p fs :
  exists_ fs p = true →
  res (makedirs p fs) = Err (FileExistsError p) ∧ final (makedirs p fs) = fs
  ∧ emitted (makedirs p fs) = [Makedirs p].
Proof.
  intros He. wp_start (makedirs p) fs. apply wp_makedirs.
  by rewrite makedirs_plan_exists.
Qed.

(** X3: on the master process of a fresh run, a save directory that
    already exists stops [check_and_init] with [FileExistsError] right
    after [os.makedirs]: nothing is checked, configured or written. *)
Theorem existing_save_dir_stops_master
    (w : World) (args : namespace) (fs : FS) (resume : value) (od nm : string) :
  master_process args = Ok true →
  getattr args "resume" = Ok resume →
  truthy resume = false →
  args !! "output_dir" = Some (VStr od) →
  args !! "name" = Some (VStr nm) →
  raises w fs (Call_increment_name (OsPath.join od nm)) = None →
  let sd := increment_name w fs (OsPath.join od nm) in
  exists_ fs sd = true →
  let o := check_and_init w args fs in
  res o = Err (FileExistsError sd)
  ∧ final o = fs
  ∧ emitted o = [Call_increment_name (OsPath.join od nm); Makedirs sd].
Proof.
  intros Hm Hr Ht Hod Hnm Hinc sd Hex o. subst o sd.
  apply getattr_Ok in Hod, Hnm. apply makedirs_plan_exists in Hex.
  wp_start (check_and_init w args) fs.
  unfold check_and_init, check_files. rewrite Hm, Hr, Hod, Hnm. simpl.
  wp_train.
  all: simpl in *; simplify_eq; try congruence.
  all: split_and?; congruence.
Qed.

(** *** Configuration, device and seed *)

Lemma check_device_result w master args fs :
  wp (check_device w master args) fs [] (λ r s t,
    ∀ cfg dev a, r = Ok (cfg, dev, a) →
      ∃ conf_file spec,
        args !! "conf_file" = Some conf_file
        ∧ args !! "device" = Some spec
        ∧ dev = SelectedDevice spec
        ∧ cfg = (if hasattr (Config_fromfile w fs conf_file) "training_mode"
                 then Config_fromfile w fs conf_file
                 else <["training_mode" := VStr "repvgg"]>
                        (Config_fromfile w fs conf_file))).
Proof.
  unfold check_device. wp_train.
  all: intros cfg dev a' Ha'; simplify_eq.
  all: rewrite getattr_Ok in *; eauto 10.
Qed.

Lemma check_and_init_device w args fs cfg dev a :
  res (check_and_init w args fs) = Ok (cfg, dev, a) →
  ∃ spec, a !! "device" = Some spec ∧ dev = SelectedDevice spec.
Proof.
  intros H.
  apply check_and_init_Ok in H as (master & a1 & _ & _ & _ & H3 & _).
  destruct (wp_intro _ _ _ (check_device_result w master a
    (final (check_files w master args fs))) _ _ _ H3)
    as (conf_file & spec & Hc & Hd & -> & ->).
  by exists spec.
Qed.

Lemma check_files_keeps_files w master args fs :
  wp (check_files w master args) fs [] (λ r s t, files s = files fs).
Proof.
  unfold check_files. wp_go.
  all: try (apply wp_checkpoint_path_of_any; intros ? ? [-> | ->]; wp_go).
  all: done.
Qed.

(** X4: the configuration [check_and_init] returns always has a
    [training_mode]: the one of the configuration file when it has one,
    ['repvgg'] otherwise, and nothing else of the file's configuration is
    changed.  The file is loaded when the save directory has been created
    and the snapshot has not yet been written.  The device returned is the
    one selected for [args.device]. *)
Theorem returned_config_has_training_mode
    (w : World) (args : namespace) (fs : FS)
    (cfg : config) (dev : device) (a : namespace) :
  res (check_and_init w args fs) = Ok (cfg, dev, a) →
  ∃ conf_file spec,
    a !! "conf_file" = Some conf_file
    ∧ a !! "device" = Some spec
    ∧ dev = SelectedDevice spec
    ∧ let seen := {| files := files fs;
                     dirs := dirs (final (check_and_init w args fs)) |} in
      let loaded := Config_fromfile w seen conf_file in
      cfg !! "training_mode"
      = Some (default (VStr "repvgg") (loaded !! "training_mode"))
      ∧ ∀ k, k ≠ "training_mode" → cfg !! k = loaded !! k.
Proof.
  intros H.
  apply check_and_init_Ok in H as (master & a1 & _ & _ & _ & H3 & Hfin & _).
  destruct (wp_intro _ _ _ (check_device_result w master a
    (final (check_files w master args fs))) _ _ _ H3)
    as (conf_file & spec & Hc & Hd & -> & ->).
  pose proof (wp_intro _ _ _ (check_files_keeps_files w master args fs)) as Hf.
  simpl in Hf.
  assert (Hdirs : dirs (final (check_and_init w args fs))
                  = dirs (final (check_files w master args fs))).
  { rewrite Hfin.
    destruct (wp_intro _ _ _ (check_device_returns w master a
      (final (check_files w master args fs))) _ _ _ H3) as (_ & W0 & W1).
    destruct master.
    - by destruct (W1 eq_refl) as (? & _ & _ & _ & ->).
    - by rewrite (W0 eq_refl). }
  exists conf_file, spec. split_and?; try done. cbv zeta.
  rewrite Hdirs, <- Hf.
  replace {| files := files (final (check_files w master args fs));
             dirs := dirs (final (check_files w master args fs)) |}
    with (final (check_files w master args fs)) by (by destruct (final _)).
  unfold hasattr.
  destruct (Config_fromfile w _ conf_file !! "training_mode") as [v|] eqn:E.
  - rewrite bool_decide_eq_true_2 by done. by rewrite E.
  - rewrite bool_decide_eq_false_2 by (by inversion 1).
    split; [by rewrite lookup_insert_eq|].
    intros k Hk. by rewrite lookup_insert_ne.
Qed.

(** *** What [main] hands to its collaborators *)

Lemma check_and_init_for_main w args fs :
  wp (check_and_init w args) fs [] (λ r s t,
    Forall (λ e, after_init e = false) t
    ∧ ∀ cfg dev a, r = Ok (cfg, dev, a) →
        ∃ spec, a !! "device" = Some spec ∧ dev = SelectedDevice spec).
Proof.
  apply wp_conj.
  - eapply wp_use; [apply check_and_init_trace|]. by intros ??? (?&_).
  - unfold wp. intros ????. by eapply check_and_init_device.
Qed.

Lemma main_hand_off w args fs :
  let t := emitted (main w args fs) in
  let lr := (get_envs w).1.1 in
  let rk := (get_envs w).1.2 in
  let ws := (get_envs w).2 in
  (∀ a c d, New_Trainer a c d ∈ t →
     a !! "local_rank" = Some (VInt lr)
     ∧ a !! "rank" = Some (VInt rk)
     ∧ a !! "world_size" = Some (VInt ws)
     ∧ Log INFO (TrainingArgs a) ∈ t
     ∧ if lr =? -1 then ∃ spec, a !! "device" = Some spec ∧ d = SelectedDevice spec
       else d = CudaDevice (VInt lr))
  ∧ (∀ b u r n s, Init_process_group b u r n s ∈ t →
       lr ≠ -1
       ∧ b = (if is_nccl_available w then "nccl" else "gloo")
       ∧ r = VInt lr ∧ n = VInt ws ∧ s = 7200
       ∧ Cuda_set_device (VInt lr) ∈ t
       ∧ ∀ a c d, New_Trainer a c d ∈ t → a !! "dist_url" = Some u)
  ∧ (∀ c, Trainer_calibrate c ∈ t →
       (Trainer_train ∉ t) ∧ (Destroy_process_group ∉ t)
       ∧ last t = Some (Trainer_calibrate c)).
Proof.
  wp_start (main w args) fs. unfold main, load_envs.
  destruct (get_envs w) as [[lr rk] ws] eqn:Henv. simpl.
  wp_go.
  { split_and?; intros; match goal with H : _ ∈ _ |- _ => in_cases H end. }
  eapply wp_use; [apply check_and_init_for_main|].
  intros r s t (A & R). cbv beta. rewrite app_nil_l.
  destruct r as [[[cfg dev] args1]|].
  2:{ simpl. split_and?; intros;
        match goal with
        | H : _ ∈ _ :: _ |- _ =>
            apply elem_of_cons in H as [?|H]; [done|];
            by apply (not_in_init _ _ A) in H
        end. }
  destruct (R _ _ _ eq_refl) as (spec & Hspec & ->). clear R.
  wp_train.
  all: rewrite <- ?app_assoc; simpl.
  all: simpl in * |-; rewrite ?negb_true_iff, ?negb_false_iff in * |-.
  all: rewrite ?getattr_Ok in * |-.
  all: split_and?.
  all: intros; match goal with H : _ ∈ _ |- _ =>
         apply elem_of_main in H; [|done..]; in_cases H; simplify_eq
       end.
  all: split_and?.
  all: try done.
  all: try (by repeat (rewrite lookup_insert_ne by done);
              rewrite ?lookup_insert_eq).
  all: try (apply elem_of_main; [done..|]; in_list).
  all: try (by apply Z.eqb_neq).
  all: try (by apply last_main).
  all: try (rewrite elem_of_main by done;
            let H := fresh in intros H; in_cases H).
  all: try (intros ??? Hin; apply elem_of_main in Hin; [|done..];
            in_cases Hin; simplify_eq;
            by repeat (rewrite lookup_insert_ne by done)).
  all: match goal with H : (_ =? _) = _ |- _ => rewrite H end; try done.
  all: exists spec; split; [|done].
  all: by repeat (rewrite lookup_insert_ne by done).
Qed.

(** X6: whatever the arguments held, and also after they were rebound
    from a snapshot, the [Trainer] is constructed with the [local_rank],
    [rank] and [world_size] of the current environment and with the
    arguments that were just logged; its device is [cuda:local_rank] in
    DDP mode and the device selected for [args.device] otherwise. *)
Theorem trainer_gets_environment_ranks
    (w : World) (args : namespace) (fs : FS) (a : namespace) (c : config)
    (d : device) :
  New_Trainer a c d ∈ emitted (main w args fs) →
  a !! "local_rank" = Some (VInt (get_envs w).1.1)
  ∧ a !! "rank" = Some (VInt (get_envs w).1.2)
  ∧ a !! "world_size" = Some (VInt (get_envs w).2)
  ∧ Log INFO (TrainingArgs a) ∈ emitted (main w args fs)
  ∧ if (get_envs w).1.1 =? -1
    then ∃ spec, a !! "device" = Some spec ∧ d = SelectedDevice spec
    else d = CudaDevice (VInt (get_envs w).1.1).
Proof. apply (main_hand_off w args fs). Qed.

(** X7: the process group is joined only in DDP mode (local rank other
    than -1), after the CUDA device of the local rank was set, with
    backend [nccl] when available and [gloo] otherwise, with the local
    rank as rank, the environment's world size, a timeout of 7200
    seconds and [args.dist_url] as init method. *)
Theorem process_group_join_arguments
    (w : World) (args : namespace) (fs : FS) (b : string) (u r n : value)
    (s : Z) :
  Init_process_group b u r n s ∈ emitted (main w args fs) →
  (get_envs w).1.1 ≠ -1
  ∧ b = (if is_nccl_available w then "nccl" else "gloo")
  ∧ r = VInt (get_envs w).1.1
  ∧ n = VInt (get_envs w).2
  ∧ s = 7200
  ∧ Cuda_set_device (VInt (get_envs w).1.1) ∈ emitted (main w args fs)
  ∧ ∀ a c d, New_Trainer a c d ∈ emitted (main w args fs) →
      a !! "dist_url" = Some u.
Proof. apply (main_hand_off w args fs). Qed.

(** X8: a run that calibrates (post-training quantization) ends there:
    [calibrate] is its last call, it never trains and, even on the master
    of a multi-process job, never tears the process group down. *)
Theorem calibration_ends_the_run
    (w : World) (args : namespace) (fs : FS) (c : config) :
  Trainer_calibrate c ∈ emitted (main w args fs) →
  (Trainer_train ∉ emitted (main w args fs))
  ∧ (Destroy_process_group ∉ emitted (main w args fs))
  ∧ last (emitted (main w args fs)) = Some (Trainer_calibrate c).
Proof. apply (main_hand_off w args fs). Qed.

(** *** The random seed *)

Lemma check_and_init_seed w args fs resume rk :
  getattr args "resume" = Ok resume → truthy resume = false →
  args !! "rank" = Some (VInt rk) →
  wp (check_and_init w args) fs [] (λ r s t,
    ∀ seed d, Call_set_random_seed seed d ∈ t →
      seed = 1 + rk ∧ d = (rk =? -1)).
Proof.
  intros Hr Ht Hrk. unfold check_and_init. wp_go.
  2:{ intros ?? H. in_cases H. }
  eapply wp_use.
  { apply wp_conj;
      [apply check_files_trace | apply (check_files_fresh _ _ _ _ resume Hr Ht)]. }
  intros r s t ((H1 & _) & F). cbv beta. rewrite app_nil_l.
  assert (S1 : ∀ seed d, Call_set_random_seed seed d ∉ t).
  { intros ?? Hin. by apply (all_in_elem _ _ _ H1) in Hin. }
  destruct r as [a1|]; [|intros ?? Hin; by apply S1 in Hin].
  destruct (F _ eq_refl) as (od & nm & _ & _ & -> & _). clear F.
  wp_go. eapply wp_use.
  { apply wp_conj; [apply check_shape_trace | apply check_shape_fields]. }
  intros r s' t' ((H2 & _) & _ & F). cbv beta.
  assert (S2 : ∀ seed d, Call_set_random_seed seed d ∉ t').
  { intros ?? Hin. by apply (all_in_elem _ _ _ H2) in Hin. }
  destruct r as [a2|].
  2:{ intros ?? [Hin|Hin]%elem_of_app; [by apply S1 in Hin|by apply S2 in Hin]. }
  assert (Hrk2 : getattr a2 "rank" = Ok (VInt rk)).
  { apply getattr_Ok. destruct (F _ eq_refl) as (ss & _ & Hss).
    destruct (truthy ss).
    - destruct Hss as (?&?&_&_&_&->). by rewrite !lookup_insert_ne.
    - destruct Hss as (?&_&_&->). by rewrite !lookup_insert_ne. }
  clear F. unfold check_device. wp_train.
  all: rewrite <- ?app_assoc; simpl.
  all: intros seed d Hin; rewrite ?elem_of_app in Hin; decompose [or] Hin; clear Hin.
  all: match goal with H : _ ∈ _ |- _ =>
         first [by apply S1 in H | by apply S2 in H | in_cases H; simplify_eq]
       end.
  all: simpl in *; by simplify_eq.
Qed.

(** X5: on a run that does not resume, the random seed is one more than
    the rank the environment gives this process, and seeding is
    deterministic only for rank -1, the single-process run. *)
Theorem seed_follows_rank
    (w : World) (args : namespace) (fs : FS) (resume : value) (seed : Z)
    (d : bool) :
  getattr args "resume" = Ok resume →
  truthy resume = false →
  Call_set_random_seed seed d ∈ emitted (main w args fs) →
  seed = 1 + (get_envs w).1.2 ∧ d = ((get_envs w).1.2 =? -1).
Proof.
  intros Hr Ht. revert seed d.
  wp_start (main w args) fs. unfold main, load_envs.
  destruct (get_envs w) as [[lr rk] ws] eqn:Henv. simpl.
  wp_go.
  { intros ?? H. in_cases H. }
  eapply wp_use.
  { apply wp_conj; [apply check_and_init_trace|].
    apply (check_and_init_seed _ _ _ resume rk); [|done|].
    - unfold setattr. by rewrite !getattr_insert_ne.
    - unfold setattr. by rewrite lookup_insert_ne, lookup_insert_eq. }
  intros r s t ((A & _) & S). cbv beta. rewrite app_nil_l.
  destruct r as [[[cfg dev] args1]|].
  2:{ simpl. intros ?? [?|Hin]%elem_of_cons; [done|]. by eapply S. }
  wp_train.
  all: rewrite <- ?app_assoc; simpl.
  all: intros seed d [?|[Hin|Hin]%elem_of_app]%elem_of_cons;
         [done|by eapply S|in_cases Hin].
Qed.

(** *** Concrete runs *)

Lemma find_event (p : event → bool) t :
  existsb p t = true → ∃ e, e ∈ t ∧ p e = true.
Proof.
  intros (e & Hin & He)%existsb_exists. exists e. by rewrite list_elem_of_In.
Qed.

Lemma first_run_works_in_new_directory :
  ∃ cfg dev a,
    res (check_and_init single first_args empty_fs) = Ok (cfg, dev, a)
    ∧ a !! "save_dir" = Some (VStr "runs/train/exp")
    ∧ "runs/train/exp" ∈ dirs (final (check_and_init single first_args empty_fs)).
Proof.
  destruct (returns_Ok (res (check_and_init single first_args empty_fs)))
    as [[[cfg dev] a] E]; [vm_compute; reflexivity|].
  destruct (fresh_run_save_dir single first_args empty_fs (VBool false)
    cfg dev a) as (od & nm & m & Hod & Hnm & Hm & Hsd & _ & _ & Hmk);
    [vm_compute; reflexivity|reflexivity|exact E|].
  vm_compute in Hod, Hnm, Hm.
  injection Hod as <-. injection Hnm as <-. injection Hm as <-.
  exists cfg, dev, a. exact (conj E (conj Hsd (proj1 (proj2 (Hmk eq_refl))))).
Defined.

Lemma second_run_into_same_directory_fails :
  res (check_and_init single first_args fs_checkpoint_only)
  = Err (FileExistsError "runs/train/exp").
Proof.
  refine (proj1 (existing_save_dir_stops_master single first_args
    fs_checkpoint_only (VBool false) "runs/train" "exp" _ _ _ _ _ _ _));
    vm_compute; reflexivity.
Defined.

Lemma first_run_config_is_repvgg :
  ∃ cfg dev a,
    res (check_and_init single first_args empty_fs) = Ok (cfg, dev, a)
    ∧ cfg !! "training_mode" = Some (VStr "repvgg").
Proof.
  destruct (returns_Ok (res (check_and_init single first_args empty_fs)))
    as [[[cfg dev] a] E]; [vm_compute; reflexivity|].
  destruct (returned_config_has_training_mode single first_args empty_fs
    cfg dev a E) as (conf_file & spec & _ & _ & _ & Hmode & _).
  exists cfg, dev, a. exact (conj E Hmode).
Defined.

Lemma worker_seed_is_two :
  Call_set_random_seed 2 false ∈ emitted (main worker default_args empty_fs)
  ∧ 2 = 1 + (get_envs worker).1.2.
Proof.
  assert (H : Call_set_random_seed 2 false
              ∈ emitted (main worker default_args empty_fs)).
  { apply (list_elem_of_lookup_2 _ 5). vm_compute. reflexivity. }
  split; [exact H|].
  refine (proj1 (seed_follows_rank worker default_args empty_fs (VBool false)
    2 false _ _ H)); vm_compute; reflexivity.
Defined.

Lemma single_trainer_has_rank :
  ∃ a c d,
    New_Trainer a c d ∈ emitted (main single default_args empty_fs)
    ∧ a !! "rank" = Some (VInt (-1))
    ∧ Log INFO (TrainingArgs a) ∈ emitted (main single default_args empty_fs).
Proof.
  destruct (find_event is_New_Trainer
    (emitted (main single default_args empty_fs))) as (e & Hin & He);
    [vm_compute; reflexivity|].
  destruct e; try discriminate He.
  destruct (trainer_gets_environment_ranks single default_args empty_fs
    _ _ _ Hin) as (_ & Hrk & _ & Hlog & _).
  eexists _, _, _. exact (conj Hin (conj Hrk Hlog)).
Defined.

Lemma worker_sets_device_and_joins :
  Cuda_set_device (VInt 1) ∈ emitted (main worker default_args empty_fs).
Proof.
  refine (proj1 (proj2 (proj2 (proj2 (proj2 (proj2
    (process_group_join_arguments worker default_args empty_fs "nccl"
       (VStr "env://") (VInt 1) (VInt 2) 7200 _))))))).
  apply (list_elem_of_lookup_2 _ 11). vm_compute. reflexivity.
Defined.

(** [--quant --calib] *)
Definition calib_args : namespace :=
  <["calib" := VBool true]> (<["quant" := VBool true]> default_args).

Definition is_calibrate (e : event) : bool :=
  match e with Trainer_calibrate _ => true | _ => false end.

Lemma calibration_run_never_trains :
  Trainer_train ∉ emitted (main single calib_args empty_fs).
Proof.
  destruct (find_event is_calibrate
    (emitted (main single calib_args empty_fs))) as (e & Hin & He);
    [vm_compute; reflexivity|].
  destruct e; try discriminate He.
  exact (proj1 (calibration_ends_the_run single calib_args empty_fs _ Hin)).
Defined.

(** *** A snapshot that cannot be used *)




(** *** The seed of a resumed run *)

Lemma check_and_init_resumed_seed w args fs resume snap :
  getattr args "resume" = Ok resume → truthy resume = true →
  scan_returns w fs resume →
  isfile fs (resolved w fs resume) = true →
  files fs !! args_yaml_of (resolved w fs resume) = Some (Mapping snap) →
  wp (check_and_init w args) fs [] (λ r s t,
    ∀ seed d, Call_set_random_seed seed d ∈ t →
      ∃ v, snap !! "rank" = Some v ∧ int_add 1 v = Ok seed
           ∧ d = eq_int v (-1)).
Proof.
  intros Hr Ht Hs Hf Hy. unfold check_and_init. wp_go.
  2:{ intros ?? H. in_cases H. }
  eapply wp_use.
  { eapply (wp_conj _ _ _
      (λ r _ _, r = Ok (<["resume" := VStr (resolved w fs resume)]> snap)));
      [apply check_files_trace|].
    exact (proj1 (check_files_snapshot w a args fs resume snap Hr Ht Hs Hf Hy)). }
  intros r s t ((H1 & _) & ->). cbv beta. rewrite app_nil_l.
  assert (S1 : ∀ seed d, Call_set_random_seed seed d ∉ t).
  { intros ?? Hin. by apply (all_in_elem _ _ _ H1) in Hin. }
  wp_go. eapply wp_use.
  { apply wp_conj; [apply check_shape_trace | apply check_shape_fields]. }
  intros r s' t' ((H2 & _) & _ & F). cbv beta.
  assert (S2 : ∀ seed d, Call_set_random_seed seed d ∉ t').
  { intros ?? Hin. by apply (all_in_elem _ _ _ H2) in Hin. }
  destruct r as [a2|].
  2:{ intros ?? [Hin|Hin]%elem_of_app; [by apply S1 in Hin|by apply S2 in Hin]. }
  assert (Hrk2 : a2 !! "rank" = snap !! "rank").
  { destruct (F _ eq_refl) as (ss & _ & Hss).
    destruct (truthy ss).
    - destruct Hss as (?&?&_&_&_&->). by rewrite !lookup_insert_ne.
    - destruct Hss as (?&_&_&->). by rewrite !lookup_insert_ne. }
  clear F. unfold check_device. wp_train.
  all: rewrite <- ?app_assoc; simpl.
  all: intros seed d Hin; rewrite ?elem_of_app in Hin; decompose [or] Hin; clear Hin.
  all: match goal with H : _ ∈ _ |- _ =>
         first [by apply S1 in H | by apply S2 in H | in_cases H; simplify_eq]
       end.
  all: match goal with H : getattr _ "rank" = Ok ?v |- _ =>
         apply getattr_Ok in H; rewrite Hrk2 in H; by exists v
       end.
Qed.

(** X10: on a resume run that finds its snapshot, the random seed comes
    from the snapshot: it is one more than the rank recorded there, and
    seeding is deterministic when that rank is -1, whatever rank the
    environment gives the resuming process. *)
Theorem resumed_seed_follows_snapshot
    (w : World) (args : namespace) (fs : FS) (resume : value)
    (snap : namespace) (seed : Z) (d : bool) :
  getattr args "resume" = Ok resume →
  truthy resume = true →
  scan_returns w fs resume →
  isfile fs (resolved w fs resume) = true →
  files fs !! args_yaml_of (resolved w fs resume) = Some (Mapping snap) →
  Call_set_random_seed seed d ∈ emitted (main w args fs) →
  ∃ v, snap !! "rank" = Some v ∧ int_add 1 v = Ok seed ∧ d = eq_int v (-1).
Proof.
  intros Hr Ht Hs Hf Hy. revert seed d.
  wp_start (main w args) fs. unfold main, load_envs.
  destruct (get_envs w) as [[lr rk] ws] eqn:Henv. simpl.
  wp_go.
  { intros ?? H. in_cases H. }
  eapply wp_use.
  { apply wp_conj; [apply check_and_init_trace|].
    apply (check_and_init_resumed_seed _ _ _ resume snap); try done.
    unfold setattr. by rewrite !getattr_insert_ne. }
  intros r s t ((A & _) & S). cbv beta. rewrite app_nil_l.
  destruct r as [[[cfg dev] args1]|].
  2:{ simpl. intros ?? [?|Hin]%elem_of_cons; [done|]. by eapply S. }
  wp_train.
  all: rewrite <- ?app_assoc; simpl.
  all: intros seed d [?|[Hin|Hin]%elem_of_app]%elem_of_cons;
         [done|by eapply S|in_cases Hin].
Qed.

Lemma resumed_single_run_seed :
  Call_set_random_seed 0 true
  ∈ emitted (main single (<["resume" := VBool true]> default_args) fs_with_snapshot)
  ∧ ∃ v, snapshot !! "rank" = Some v ∧ int_add 1 v = Ok 0.
Proof.
  assert (H : Call_set_random_seed 0 true
              ∈ emitted (main single (<["resume" := VBool true]> default_args)
                           fs_with_snapshot)).
  { apply (list_elem_of_lookup_2 _ 7). vm_compute. reflexivity. }
  split; [exact H|].
  destruct (resumed_seed_follows_snapshot single
    (<["resume" := VBool true]> default_args) fs_with_snapshot (VBool true)
    snapshot 0 true) as (v & Hv & Hs & _);
    first [ exact H | apply scan_returns_single | apply snapshot_beside_latest
          | vm_compute; reflexivity | idtac ].
  by exists v.
Defined.

(** *** The argument parser of [tools/train.py] *)

(** [type=] of an argument. *)
Inductive type_ := str | int.

(** How [add_argument] declares an argument. *)
Inductive how :=
| store (t : type_)                  (* type=t *)
| store_true                         (* action='store_true' *)
| store_or_const (const : value).    (* nargs='?', const=...; strings as given *)

Record argument := {
  dest : string;
  declared : how;
  default_value : value
}.



Definition option_ (d : string) (t : type_) (v : value) : argument :=
  {| dest := d; declared := store t; default_value := v |}.

Definition flag (d : string) : argument :=
  {| dest := d; declared := store_true; default_value := VBool false |}.

(** Lines 41 to 78: the arguments [get_args_parser] declares, under the
    names argparse stores them. *)
Definition get_args_parser : list argument :=
  [option_ "data_path" str (VStr "./data/coco.yaml");
   option_ "conf_file" str (VStr "./configs/yolov6n.py");
   option_ "img_size" int (VInt 640);
   flag "rect";
   option_ "batch_size" int (VInt 32);
   option_ "epochs" int (VInt 400);
   option_ "workers" int (VInt 8);
   option_ "device" str (VStr "0");
   option_ "eval_interval" int (VInt 20);
   flag "eval_final_only";
   option_ "heavy_eval_range" int (VInt 50);
   flag "check_images";
   flag "check_labels";
   option_ "output_dir" str (VStr "./runs/train");
   option_ "name" str (VStr "exp");
   option_ "dist_url" str (VStr "env://");
   option_ "gpu_count" int (VInt 0);
   option_ "local_rank" int (VInt (-1));
   {| dest := "resume"; declared := store_or_const (VBool true);
      default_value := VBool false |};
   flag "write_trainbatch_tb";
   option_ "stop_aug_last_n_epoch" int (VInt 15);
   option_ "save_ckpt_on_last_n_epoch" int (VInt (-1));
   flag "distill";
   flag "distill_feat";
   flag "quant";
   flag "calib";
   option_ "teacher_model_path" str VNone;
   option_ "temperature" int (VInt 20);
   flag "fuse_ab";
   option_ "bs_per_gpu" int (VInt 32);
   flag "specific_shape";
   option_ "height" int VNone;
   option_ "width" int VNone;
   flag "cache_ram"].


(** Without command-line arguments every attribute is the default. *)
Lemma default_args_are_the_defaults :
  default_args = list_to_map ((λ a, (dest a, default_value a)) <$> get_args_parser).
Proof. reflexivity. Qed.












(** *** [tools/infer.py]: directories and failures of [run] *)











(** What a call of [run] fails with, if it fails: [os.makedirs] by the
    state of the file system, the [Inferer] as the world has it. *)
Definition failure (w : World) (fs : FS) (e : event) : option exn :=
  match e with
  | Makedirs p => makedirs_error fs p
  | New_Inferer _ _ _ _ _ _ _ _ | Inferer_infer _ _ _ _ _ _ _ _ _ _ _ =>
      raises w fs e
  | _ => None
  end.

(** X13: [run] fails exactly when one of its calls raises, [os.makedirs]
    on the save directory or on the labels directory, the construction
    of the [Inferer] or [infer]: it fails with that exception and that
    call is its last.  'Results saved to' is logged exactly on the runs
    that return and had output to save. *)
Theorem run_fails_with_its_last_call (w : World) (a : Infer.run_args) (fs : FS) :
  let o := Infer.run w a fs in
  let save_dir := match Infer.save_dir a with
                  | Some d => d
                  | None => OsPath.join (Infer.project a) (Infer.name a)
                  end in
  (∀ x, res o = Err x ↔
        ∃ e, last (emitted o) = Some e ∧ failure w (final o) e = Some x)
  ∧ (Log INFO (ResultsSavedTo save_dir) ∈ emitted o
       ↔ res o = Ok tt
         ∧ (Infer.save_txt a || negb (Infer.not_save_img a)) = true).
Proof.
  wp_start (Infer.run w a) fs. unfold Infer.run, Infer.resolve_save_dir.
  set (sd := match Infer.save_dir a with
             | Some d => d
             | None => OsPath.join (Infer.project a) (Infer.name a)
             end).
  replace (match Infer.save_dir a with
           | Some d => (d, d)
           | None => (OsPath.join (Infer.project a) (Infer.name a),
                      OsPath.join (OsPath.join (Infer.project a) (Infer.name a))
                                  "labels")
           end)
    with (sd, match Infer.save_dir a with
              | Some d => d
              | None => OsPath.join sd "labels"
              end) by (subst sd; by destruct (Infer.save_dir a)).
  clearbody sd. cbv beta iota.
  destruct (Infer.not_save_img a), (Infer.save_txt a); simpl; wp_go; simpl in *.
  all: split;
         [ intros x; split; [intros Hx | intros (e0 & Hl & Hx)]
         | split; [intros H | intros [H1 H2]] ].
  all: try discriminate.
  all: try (injection Hx as <-; eexists; split; [reflexivity|];
            unfold failure, makedirs_error;
            first [ eassumption
                  | match goal with
                    | H : makedirs_plan _ _ = _ |- _ => by rewrite H
                    end ]).
  all: try (injection Hl as <-; unfold failure, makedirs_error in Hx;
            simpl in Hx;
            repeat match goal with
                   | H : makedirs_plan _ _ = _ |- _ => rewrite H in Hx; clear H
                   end;
            congruence).
  all: try (in_cases H; done).
  all: in_list.
Qed.

End Coverage.
